(** * las-dispersion-scan: the retrieval entry point [run_pypret] of [dscan.py]

    The development follows the blocks of [run_pypret] in source order:

    - [Optics]: the [Material] enumeration with [get_coefficient], the
      frequency-grid arguments and the conversion of the stage positions.
      These are formulas over tan, cos and pi, so a float is read as a real
      number there.
    - [Numpy]: the array primitives that the other blocks call, over an
      executable model of float64 (exact rationals extended with the two
      infinities and NaN).
    - [Preprocess]: loading of the fundamental spectrum and of the scan
      trace, with the caller's arrays in an explicit store because the code
      writes to them through views.
    - [Compression]: the loop over the scan parameter that aligns the
      temporal profiles and records the durations, and the selection of the
      position to report.
    - [Fundamental] and [Acquisition]: the centre and the cleaning of the
      fundamental spectrum, and the two ways in which a scan array is
      assembled.
    - [PiSeries]: rational bounds on pi, used where a property of the grid
      is decided at concrete inputs.

    Calls into pypret, scipy and [np.polyfit] whose results only flow through
    the code are parameters of the corresponding sections. *)

From Stdlib Require Import String Bool Arith ZArith QArith Qabs Reals Lra Lia List.
From Stdlib Require Import Permutation Qreals Machin.
From Stdlib Require Lqa.
Import ListNotations.

(** ** Exceptions and results *)

(** The exception classes that the modelled statements raise. *)
Inductive exn : Type :=
| ValueError (msg : string)
| IndexError (msg : string)
| TypeError (msg : string).

Inductive result (A : Type) : Type :=
| Ok (a : A)
| Error (e : exn).
Arguments Ok {A} a.
Arguments Error {A} e.

Definition rbind {A B : Type} (r : result A) (k : A -> result B) : result B :=
  match r with
  | Ok a => k a
  | Error e => Error e
  end.

Definition is_ok {A : Type} (r : result A) : bool :=
  match r with
  | Ok _ => true
  | Error _ => false
  end.

(** ** Materials, grid arguments and the insertion axis, over the reals *)
Module Optics.

Local Open Scope R_scope.

(** [class Material(str, enum.Enum)] *)
Inductive Material : Type := fs | bk7 | gratinga | gratingc.

(** The string value of each member. *)
Definition value (m : Material) : string :=
  match m with
  | fs => "FS"
  | bk7 => "BK7"
  | gratinga => "gratinga"
  | gratingc => "gratingc"
  end.

Definition members : list Material := [fs; bk7; gratinga; gratingc].

(** [Material(tag)]: lookup of a member by value; the enumeration raises
    [ValueError] for a value that no member has. *)
Definition Material_of_value (tag : string) : result Material :=
  match find (fun m => String.eqb (value m) tag) members with
  | Some m => Ok m
  | None => Error (ValueError "not a valid Material")
  end.

Definition Material_eqb (a b : Material) : bool := String.eqb (value a) (value b).

(** [self in {...}] *)
Definition Material_in (self : Material) (s : list Material) : bool :=
  existsb (Material_eqb self) s.

(** [Material.get_coefficient] *)
Definition get_coefficient (self : Material) (wedge_angle : R) : result R :=
  if Material_in self [gratinga; gratingc] then Ok 4.0
  else if Material_in self [bk7; fs] then
    Ok (tan (wedge_angle * PI / 180) * cos (wedge_angle * PI / 360))
  else Error (ValueError "Unsupported material type").

(** A coefficient requested by tag: the member is looked up first. *)
Definition coefficient_of_tag (tag : string) (wedge_angle : R) : result R :=
  rbind (Material_of_value tag) (fun m => get_coefficient m wedge_angle).

(** [np.round(x, 0)]: the nearest integer, a half going to the even
    neighbour. *)
Definition np_round (x : R) : R :=
  let f := Int_part x in
  let r := x - IZR f in
  if Rlt_dec r (1 / 2) then IZR f
  else if Rlt_dec (1 / 2) r then IZR (f + 1)
  else if Z.even f then IZR f else IZR (f + 1).

(** The arguments that [pypret.FourierTransform(N, dw=..., w0=...)] is
    called with. The class belongs to pypret; it keeps the three values as
    they are given, and its frequency axis is [w0 + k * dw] for
    [k = 0 .. N-1]. *)
Record FourierTransform : Type := {
  N : Z;
  dw : R;
  w0 : R
}.

(** Lines 436-438. *)
Definition freq_bandwidth (freq_bandwidth_wl : Z) (wavelength_raw_center : R) : R :=
  IZR freq_bandwidth_wl * 1e-9 * 2 * PI * 2.998e8 / wavelength_raw_center ^ 2.

(** Line 439. *)
Definition fund_frequency_step (freq_bandwidth : R) (grid_points : Z) : R :=
  np_round (freq_bandwidth / IZR (grid_points - 1)).

(** Lines 436-442: the grid of the run. No statement of this block raises:
    the operands are numpy floats, for which a division by zero yields an
    infinity or NaN and a warning. The values below are the real numbers
    that the float expressions stand for; they are what the code computes,
    up to float rounding, when [grid_points] is not 1 and the centre
    wavelength is not 0. At [grid_points = 1] or at a centre of 0 the code
    obtains an infinity or NaN where the division of the reals has the
    conventional value; statements about the step are made away from these
    two inputs. *)
Definition create_grid (grid_points freq_bandwidth_wl : Z)
    (wavelength_raw_center : R) : result FourierTransform :=
  let freq_bandwidth := freq_bandwidth freq_bandwidth_wl wavelength_raw_center in
  let fund_frequency_step := fund_frequency_step freq_bandwidth grid_points in
  Ok {| N := grid_points; dw := fund_frequency_step; w0 := - freq_bandwidth / 2 |}.

(** The middle of the frequency axis [w0, w0 + dw, ..., w0 + (N-1) dw]. *)
Definition axis_middle (ft : FourierTransform) : R :=
  w0 ft + IZR (N ft - 1) * dw ft / 2.

(** The builtin [min] on a sequence: the running minimum is replaced by an
    element that compares below it. *)
Fixpoint py_min_from (m : R) (xs : list R) : R :=
  match xs with
  | [] => m
  | x :: rest => if Rlt_dec x m then py_min_from x rest else py_min_from m rest
  end.

Definition py_min (xs : list R) : result R :=
  match xs with
  | [] => Error (ValueError "min() arg is an empty sequence")
  | x :: rest => Ok (py_min_from x rest)
  end.

(** Line 483: [scan_positions = scan_data[0, 1:] * 1e-3], from the stage
    positions of the first row. *)
Definition scan_positions_of (stage_positions : list R) : list R :=
  map (fun x => x * 1e-3) stage_positions.

(** Lines 506-510: the parameter axis handed to [pypret.MeshData]. The
    positions are read as real numbers, so an array holding NaN or an
    infinity is outside of this reading. In [run_pypret] an array without
    positions does not get as far as these lines, since [np.amax] of line
    486 raises on the empty block; the [ValueError] of [min] on an empty
    sequence is kept for the function as it stands. *)
Definition insertion_axis (material : Material) (wedge_angle : R)
    (scan_positions : list R) : result (list R) :=
  rbind (get_coefficient material wedge_angle) (fun method_coef =>
  rbind (py_min scan_positions) (fun lowest =>
  Ok (map (fun p => method_coef * (p - lowest)) scan_positions))).

End Optics.

(** ** Rational bounds on pi

    The partial sums of the series pi/4 = 2 atan(1/3) + atan(1/7), computed
    over the rationals. They enclose pi closely enough to decide on which
    side of an integer a multiple of pi lies, as needed for the rounded
    frequency step at concrete inputs. *)
Module PiSeries.

Fixpoint qpow (q : Q) (n : nat) : Q :=
  match n with
  | O => 1%Q
  | S n' => Qred (q * qpow q n')
  end.

(** The term of index [i] of the alternating series. *)
Definition machin_term (i : nat) : Q :=
  let k := inject_Z (Z.of_nat (2 * i + 1)) in
  Qred (qpow (-1) i *
        (2 * (qpow (1 # 3) (2 * i + 1) / k) + qpow (1 # 7) (2 * i + 1) / k)).

Fixpoint machin_sum (n : nat) : Q :=
  match n with
  | O => machin_term 0
  | S n' => Qred (machin_sum n' + machin_term (S n'))
  end.

(** Four times an odd partial sum lies below pi, four times an even one
    above; these two agree to 15 decimal places. *)
Definition pi_lower : Q := Eval vm_compute in Qred (4 * machin_sum 15).

Definition pi_upper : Q := Eval vm_compute in Qred (4 * machin_sum 14).

End PiSeries.

(** ** numpy primitives over a model of float64 *)
Module Numpy.

(** A float64 is a rational, an infinity or NaN. Arithmetic is exact on the
    rationals: rounding, overflow and the sign of zero are left out. Finite
    results are kept in lowest terms, so that equal values are equal
    terms. *)
Inductive float64 : Type :=
| Fin (q : Q)
| PInf
| NInf
| NaN.

Definition is_nan (x : float64) : bool :=
  match x with NaN => true | _ => false end.

Definition Qlt_bool (a b : Q) : bool := negb (Qle_bool b a).

Definition Qis_zero (a : Q) : bool := Z.eqb (Qnum a) 0.

Definition Qis_pos (a : Q) : bool := Z.ltb 0 (Qnum a).

(** [x < y]; false when an operand is NaN. *)
Definition fltb (x y : float64) : bool :=
  match x, y with
  | NaN, _ | _, NaN => false
  | Fin a, Fin b => Qlt_bool a b
  | NInf, NInf => false
  | NInf, _ => true
  | _, NInf => false
  | PInf, _ => false
  | Fin _, PInf => true
  end.

(** [x <= y]; false when an operand is NaN. *)
Definition fleb (x y : float64) : bool :=
  match x, y with
  | NaN, _ | _, NaN => false
  | Fin a, Fin b => Qle_bool a b
  | NInf, _ => true
  | _, PInf => true
  | _, NInf => false
  | PInf, _ => false
  end.

Definition fneg (x : float64) : float64 :=
  match x with
  | Fin a => Fin (Qred (- a))
  | PInf => NInf
  | NInf => PInf
  | NaN => NaN
  end.

Definition fadd (x y : float64) : float64 :=
  match x, y with
  | NaN, _ | _, NaN => NaN
  | Fin a, Fin b => Fin (Qred (a + b))
  | PInf, NInf | NInf, PInf => NaN
  | PInf, _ | _, PInf => PInf
  | NInf, _ | _, NInf => NInf
  end.

Definition fsub (x y : float64) : float64 :=
  match x, y with
  | NaN, _ | _, NaN => NaN
  | Fin a, Fin b => Fin (Qred (a - b))
  | PInf, PInf | NInf, NInf => NaN
  | PInf, _ | _, NInf => PInf
  | NInf, _ | _, PInf => NInf
  end.

(** An infinity scaled by a finite [a]. *)
Definition scale_inf (positive : bool) (a : Q) : float64 :=
  if Qis_zero a then NaN
  else if Bool.eqb positive (Qis_pos a) then PInf else NInf.

Definition fmul (x y : float64) : float64 :=
  match x, y with
  | NaN, _ | _, NaN => NaN
  | Fin a, Fin b => Fin (Qred (a * b))
  | PInf, Fin a | Fin a, PInf => scale_inf true a
  | NInf, Fin a | Fin a, NInf => scale_inf false a
  | PInf, PInf | NInf, NInf => PInf
  | PInf, NInf | NInf, PInf => NInf
  end.

(** Division. A finite value over zero is an infinity of its sign, and
    zero over zero is NaN; numpy warns and does not raise. *)
Definition fdiv (x y : float64) : float64 :=
  match x, y with
  | NaN, _ | _, NaN => NaN
  | Fin a, Fin b =>
      if Qis_zero b then
        if Qis_zero a then NaN else if Qis_pos a then PInf else NInf
      else Fin (Qred (a / b))
  | Fin _, _ => Fin 0
  | PInf, Fin b => if Qis_pos b || Qis_zero b then PInf else NInf
  | NInf, Fin b => if Qis_pos b || Qis_zero b then NInf else PInf
  | _, _ => NaN
  end.

(** [np.abs] *)
Definition fabs (x : float64) : float64 :=
  match x with
  | Fin a => Fin (Qred (Qabs a))
  | PInf | NInf => PInf
  | NaN => NaN
  end.

(** The literals [1e-3] and [1e-9]. *)
Definition milli : float64 := Fin (1 # 1000).
Definition nano : float64 := Fin (1 # 1000000000).

(** A fresh two-dimensional array, as the list of its rows. *)
Definition matrix : Type := list (list float64).

(** [a[:n]] and [a[-n:]] *)
Definition first_n {A : Type} (n : nat) (a : list A) : list A := firstn n a.
Definition last_n {A : Type} (n : nat) (a : list A) : list A :=
  skipn (length a - n) a.

(** [a[mask]] for a boolean mask of the length of [a]. *)
Fixpoint select {A : Type} (mask : list bool) (a : list A) : list A :=
  match mask, a with
  | b :: mask', x :: a' => if b then x :: select mask' a' else select mask' a'
  | _, _ => []
  end.

(** [m.transpose()] of a rectangular array. *)
Definition transpose (m : matrix) : matrix :=
  match m with
  | [] => []
  | r :: _ => map (fun j => map (fun row => nth j row NaN) m) (seq 0 (length r))
  end.

(** [np.maximum]: NaN if an operand is NaN. *)
Definition np_maximum (a b : float64) : float64 :=
  if is_nan a then a else if is_nan b then b else if fltb a b then b else a.

(** [np.amax] over all elements; an empty array has no maximum. *)
Definition np_amax (m : matrix) : result float64 :=
  match concat m with
  | [] => Error (ValueError "zero-size array to reduction operation maximum which has no identity")
  | x :: rest => Ok (fold_left np_maximum rest x)
  end.

(** [np.average] of a one-dimensional array: the sum over the length, NaN
    for an empty array. *)
Definition np_average (a : list float64) : float64 :=
  fdiv (fold_left fadd a (Fin 0)) (Fin (inject_Z (Z.of_nat (length a)))).

(** [np.argmax]: the first NaN if there is one, else the first occurrence of
    the largest element. *)
Fixpoint argmax_loop (mp : float64) (max_ind i : nat) (ip : list float64) : nat :=
  match ip with
  | [] => max_ind
  | x :: rest =>
      if is_nan x then i
      else if fltb mp x then argmax_loop x i (S i) rest
      else argmax_loop mp max_ind (S i) rest
  end.

Definition np_argmax (a : list float64) : result nat :=
  match a with
  | [] => Error (ValueError "attempt to get argmax of an empty sequence")
  | x :: rest => if is_nan x then Ok 0%nat else Ok (argmax_loop x 0 1 rest)
  end.

(** [np.argmin]: the first NaN if there is one, else the first occurrence of
    the smallest element. *)
Fixpoint argmin_loop (mp : float64) (min_ind i : nat) (ip : list float64) : nat :=
  match ip with
  | [] => min_ind
  | x :: rest =>
      if is_nan x then i
      else if fltb x mp then argmin_loop x i (S i) rest
      else argmin_loop mp min_ind (S i) rest
  end.

Definition np_argmin (a : list float64) : result nat :=
  match a with
  | [] => Error (ValueError "attempt to get argmin of an empty sequence")
  | x :: rest => if is_nan x then Ok 0%nat else Ok (argmin_loop x 0 1 rest)
  end.

(** [np.nanargmin]: every NaN is replaced by +inf, an array of NaN only is
    rejected, and [np.argmin] runs on the rest. *)
Definition replace_nan (v x : float64) : float64 := if is_nan x then v else x.

Definition np_nanargmin (a : list float64) : result nat :=
  let mask := map is_nan a in
  let a' := map (replace_nan PInf) a in
  if negb (Nat.eqb (length mask) 0) && forallb (fun b => b) mask
  then Error (ValueError "All-NaN slice encountered")
  else np_argmin a'.

(** [np.roll(a, shift)]: element [i] moves to index [(i + shift) mod n]. *)
Definition np_roll {A : Type} (a : list A) (shift : Z) : list A :=
  let n := Z.of_nat (length a) in
  let k := Z.to_nat ((- shift) mod n) in
  skipn k a ++ firstn k a.

(** [a[i]] for a non-negative index. *)
Definition getitem {A : Type} (a : list A) (i : nat) : result A :=
  match nth_error a i with
  | Some x => Ok x
  | None => Error (IndexError "index out of bounds")
  end.

(** *** Predicates used to state what the searches return *)

Definition no_nan (a : list float64) : Prop :=
  Forall (fun x => is_nan x = false) a.

(** [i] is the first index of a smallest element of [a]. *)
Definition first_minimum (a : list float64) (i : nat) : Prop :=
  (i < length a)%nat /\
  (forall j, (j < length a)%nat -> fleb (nth i a NaN) (nth j a NaN) = true) /\
  (forall j, (j < i)%nat -> fltb (nth i a NaN) (nth j a NaN) = true).

(** A value that compares below +inf is a number or -inf. *)
Definition below_inf (x : float64) : Prop := fltb x PInf = true.

(** [i] selects a smallest defined element of [a], the first of them. *)
Definition first_defined_minimum (a : list float64) (i : nat) : Prop :=
  (i < length a)%nat /\
  is_nan (nth i a NaN) = false /\
  (forall j, (j < length a)%nat -> is_nan (nth j a NaN) = false ->
             fleb (nth i a NaN) (nth j a NaN) = true) /\
  (forall j, (j < i)%nat -> is_nan (nth j a NaN) = false ->
             fltb (nth i a NaN) (nth j a NaN) = true).

End Numpy.

(** ** Loading the fundamental spectrum and the scan trace *)
Module Preprocess.
Import Numpy.

(** The two arrays of the caller. [run_pypret] reaches them through views,
    so a write through a view is a write to the store. *)
Record store : Type := {
  fund_data : matrix;
  scan_data : matrix
}.

(** A computation reads and writes the store and returns or raises; what
    was written before an exception stays written. *)
Definition M (A : Type) : Type := store -> store * result A.

Definition ret {A : Type} (a : A) : M A := fun st => (st, Ok a).

Definition lift {A : Type} (r : result A) : M A := fun st => (st, r).

Definition bind {A B : Type} (c : M A) (k : A -> M B) : M B :=
  fun st =>
    match c st with
    | (st', Ok a) => k a st'
    | (st', Error e) => (st', Error e)
    end.

Notation "x <- c ;; k" := (bind c (fun x => k))
  (at level 61, c at next level, right associativity).
Notation "c ;;; k" := (bind c (fun _ => k))
  (at level 61, right associativity).

Definition read_fund : M matrix := fun st => (st, Ok (fund_data st)).
Definition read_scan : M matrix := fun st => (st, Ok (scan_data st)).
Definition write_fund (m : matrix) : M unit :=
  fun st => ({| fund_data := m; scan_data := scan_data st |}, Ok tt).
Definition write_scan (m : matrix) : M unit :=
  fun st => ({| fund_data := fund_data st; scan_data := m |}, Ok tt).

(** [m[:, j]]: column [j] of every row. An array without rows is taken to
    have the column. *)
Fixpoint column (j : nat) (m : matrix) : result (list float64) :=
  match m with
  | [] => Ok []
  | row :: rows =>
      rbind (getitem row j) (fun x =>
      rbind (column j rows) (fun xs => Ok (x :: xs)))
  end.

(** Replace element [j] of a row. *)
Fixpoint set_nth (j : nat) (v : float64) (row : list float64) : list float64 :=
  match j, row with
  | _, [] => []
  | O, _ :: xs => v :: xs
  | S j', x :: xs => x :: set_nth j' v xs
  end.

(** Write [vals] to the view [m[:, j]]. *)
Fixpoint set_column (j : nat) (vals : list float64) (m : matrix) : matrix :=
  match vals, m with
  | v :: vals', row :: rows => set_nth j v row :: set_column j vals' rows
  | _, _ => m
  end.

(** The wavelength window: [(wl > low * 1e-9) & (wl < high * 1e-9)]. *)
Definition window (range : float64 * float64) (wl : list float64) : list bool :=
  map (fun w => fltb (fmul (fst range) nano) w && fltb w (fmul (snd range) nano)) wl.

(** Lines 418-428. [fund_intensities] is the view [fund_data[:, 1]] until
    line 428 rebinds the name to the selected copy. *)
Definition load_fundamental (spec_fund_range : float64 * float64)
    : M (list float64 * list float64) :=
  fd <- read_fund ;;
  col0 <- lift (column 0 fd) ;;
  let fund_wavelength := map (fun w => fmul w nano) col0 in
  view <- lift (column 1 fd) ;;
  let offset := np_average (first_n 7 view) in
  write_fund (set_column 1 (map (fun x => fsub x offset) view) fd) ;;;
  fd' <- read_fund ;;
  view' <- lift (column 1 fd') ;;
  let fund_wavelength_idx := window spec_fund_range fund_wavelength in
  ret (select fund_wavelength_idx fund_wavelength,
       select fund_wavelength_idx view').

(** [scan_data[1:, 1:]], the block of intensity samples. *)
Definition scan_block (sd : matrix) : matrix := map (@tl float64) (tl sd).

(** An elementwise in-place operation on the view of the block. *)
Definition write_block (f : float64 -> float64) (sd : matrix) : matrix :=
  match sd with
  | [] => []
  | r0 :: rows =>
      r0 :: map (fun row => match row with
                            | [] => []
                            | w :: xs => w :: map f xs
                            end) rows
  end.

(** [scan_data[0, 1:]] *)
Definition first_row_tail (sd : matrix) : result (list float64) :=
  match sd with
  | [] => Error (IndexError "index 0 is out of bounds for axis 0 with size 0")
  | r0 :: _ => Ok (tl r0)
  end.

(** Lines 483-486. [scan_intensities] is the transposed view of the block
    and [/=] divides the block in place. *)
Definition scan_normalize : M (list float64 * list float64 * matrix) :=
  sd <- read_scan ;;
  r0 <- lift (first_row_tail sd) ;;
  let scan_positions := map (fun x => fmul x milli) r0 in
  col0 <- lift (column 0 (tl sd)) ;;
  let scan_wavelength := map (fun w => fmul w nano) col0 in
  peak <- lift (np_amax (transpose (scan_block sd))) ;;
  write_scan (write_block (fun x => fdiv x peak) sd) ;;;
  sd' <- read_scan ;;
  ret (scan_positions, scan_wavelength, transpose (scan_block sd')).

(** Lines 490-494; both results are copies. *)
Definition scan_crop (spec_scan_range : float64 * float64)
    (scan_wavelength : list float64) (scan_intensities : matrix)
    : list float64 * matrix :=
  let scan_wavelength_idx := window spec_scan_range scan_wavelength in
  (select scan_wavelength_idx scan_wavelength,
   map (select scan_wavelength_idx) scan_intensities).

(** [a - (wl * p0 + p1)], elementwise. *)
Definition subtract_line (p : float64 * float64) (wl row : list float64)
    : list float64 :=
  map (fun xw => fsub (fst xw) (fadd (fmul (snd xw) (fst p)) (snd p)))
      (combine row wl).

Section Scan.

(** [scipy.ndimage.gaussian_filter] for a sigma other than 0. *)
Variable blur : matrix -> Z -> matrix.

(** [np.polyfit(x, y, 1)], returning [(p[0], p[1])] or raising. *)
Variable polyfit : list float64 -> list float64 -> result (float64 * float64).

(** Line 487. With sigma 0 no axis is filtered and the input is copied. *)
Definition gaussian_filter (input : matrix) (sigma : Z) : matrix :=
  if Z.eqb sigma 0 then input else blur input sigma.

(** Lines 497-503: for each stage position a line is fitted to the first
    and the last 15 samples of the row and subtracted from the row. *)
Fixpoint subtract_rows (scan_wavelength : list float64)
    (scan_intensities : matrix) (indices : list nat) : result matrix :=
  match indices with
  | [] => Ok scan_intensities
  | i :: rest =>
      let scan_wavelength_bkg :=
        first_n 15 scan_wavelength ++ last_n 15 scan_wavelength in
      rbind (getitem scan_intensities i) (fun row =>
      let scan_intensities_bkg := first_n 15 row ++ last_n 15 row in
      rbind (polyfit scan_wavelength_bkg scan_intensities_bkg) (fun p =>
      let row' := subtract_line p scan_wavelength row in
      subtract_rows scan_wavelength
        (firstn i scan_intensities ++ row' :: skipn (S i) scan_intensities)
        rest))
  end.

Definition subtract_background (scan_positions scan_wavelength : list float64)
    (scan_intensities : matrix) : result matrix :=
  subtract_rows scan_wavelength scan_intensities (seq 0 (length scan_positions)).

(** Lines 483-494: the trace scaled, filtered and then cropped. *)
Definition crop_scan (blur_sigma : Z) (spec_scan_range : float64 * float64)
    : M (list float64 * list float64 * matrix) :=
  loaded <- scan_normalize ;;
  let '(scan_positions, scan_wavelength, scan_intensities) := loaded in
  let scan_intensities := gaussian_filter scan_intensities blur_sigma in
  let '(scan_wavelength, scan_intensities) :=
    scan_crop spec_scan_range scan_wavelength scan_intensities in
  ret (scan_positions, scan_wavelength, scan_intensities).

(** Lines 483-503. *)
Definition load_scan (blur_sigma : Z) (spec_scan_range : float64 * float64)
    : M (list float64 * list float64 * matrix) :=
  cropped <- crop_scan blur_sigma spec_scan_range ;;
  let '(scan_positions, scan_wavelength, scan_intensities) := cropped in
  scan_intensities <-
    lift (subtract_background scan_positions scan_wavelength scan_intensities) ;;
  ret (scan_positions, scan_wavelength, scan_intensities).

End Scan.

(** The order of section 4.4 of the specification for the scan trace, for
    comparison with [load_scan]: the trace is cropped to the wavelength
    window (step 2) and the cropped trace is scaled to unit peak (step 4). *)
Definition spec_crop_then_scale (spec_scan_range : float64 * float64)
    (sd : matrix) : result (list float64 * matrix) :=
  rbind (column 0 (tl sd)) (fun col0 =>
  let scan_wavelength := map (fun w => fmul w nano) col0 in
  let '(scan_wavelength, cropped) :=
    scan_crop spec_scan_range scan_wavelength (transpose (scan_block sd)) in
  rbind (np_amax cropped) (fun peak =>
  Ok (scan_wavelength, map (map (fun x => fdiv x peak)) cropped))).

(** *** Predicates used to state the properties *)

(** Every row of the array has [cols] elements. *)
Definition rectangular (cols : nat) (m : matrix) : Prop :=
  Forall (fun row => length row = cols) m.

Definition is_zero (x : float64) : bool :=
  match x with
  | Fin q => Qis_zero q
  | _ => false
  end.

(** Every element of the array satisfies [P]. *)
Definition all_samples (P : float64 -> Prop) (m : matrix) : Prop :=
  Forall (Forall P) m.

(** The arrays of the examples: two stage positions, a wavelength inside
    the window of 200 to 300 nm and one outside of it. *)
Definition example_scan : matrix :=
  [[NaN; Fin 0; Fin 1]; [Fin 250; Fin 2; Fin 4]; [Fin 350; Fin 8; Fin 6]].

Definition example_store : store :=
  {| fund_data := [[Fin 400; Fin 1]; [Fin 401; Fin 2]]; scan_data := example_scan |}.

(** A trace without signal: every intensity sample is zero. *)
Definition dark_scan : matrix :=
  [[NaN; Fin 0; Fin 1]; [Fin 250; Fin 0; Fin 0]; [Fin 260; Fin 0; Fin 0]].

Definition dark_store : store := {| fund_data := []; scan_data := dark_scan |}.

End Preprocess.

(** ** The search for the position of the shortest pulse *)
Module Compression.
Import Numpy.

(** [np.floor(len(pulse.field) / 2) + 1] for a field of [n] samples. *)
Definition result_parameter_mid_idx (n : nat) : Z := Z.of_nat n / 2 + 1.

(** Lines 576-579: the profile rolled by
    [-round(profile_max_idx - result_parameter_mid_idx)]. *)
Definition align (n : nat) (profile : list float64) : result (list float64) :=
  rbind (np_argmax profile) (fun profile_max_idx =>
  Ok (np_roll profile (- (Z.of_nat profile_max_idx - result_parameter_mid_idx n)))).

(** Lines 629-636, the index that is looked up in [result_parameter]. *)
Definition plot_index (result_optimum_idx : nat) (scan_positions : list float64)
    (plot_position : option float64) : result nat :=
  match plot_position with
  | None => Ok result_optimum_idx
  | Some position =>
      np_nanargmin
        (map (fun s => fabs (fsub s (fmul position milli))) scan_positions)
  end.

Section Search.

(** The field of the pulse once [pulse.spectrum] is set to
    [result.pulse_retrieved * result.pnps.mask(p)]; pypret computes it. *)
Variable field : Type.
Variable field_at : float64 -> field.

(** [np.power(np.abs(pulse.field), 2)] *)
Variable intensity : field -> list float64.

(** [pulse.fwhm(dt=pulse.dt / 100)], which returns a duration or raises. *)
Variable pulse_fwhm : field -> result float64.

(** Lines 580-583: [try ... except Exception: fwhm[i] = np.nan]. *)
Definition record_fwhm (p : float64) : float64 :=
  match pulse_fwhm (field_at p) with
  | Ok duration => duration
  | Error _ => NaN
  end.

(** Lines 573-583, one pass per parameter value: the columns of
    [result_profile] and the entries of [fwhm] in order. *)
Fixpoint search_loop (n : nat) (result_parameter : list float64)
    : result (list (list float64) * list float64) :=
  match result_parameter with
  | [] => Ok ([], [])
  | p :: rest =>
      rbind (align n (intensity (field_at p))) (fun column =>
      let duration := record_fwhm p in
      rbind (search_loop n rest) (fun later =>
      Ok (column :: fst later, duration :: snd later)))
  end.

(** Lines 569-585: the profiles, the durations and [result_optimum_idx]. *)
Definition compression_search (n : nat) (result_parameter : list float64)
    : result (list (list float64) * list float64 * nat) :=
  rbind (search_loop n result_parameter) (fun looped =>
  rbind (np_nanargmin (snd looped)) (fun result_optimum_idx =>
  Ok (fst looped, snd looped, result_optimum_idx))).

(** Lines 569-636: the search followed by the choice of the parameter
    value and the position that are plotted. *)
Definition choose_plot (n : nat) (result_parameter scan_positions : list float64)
    (plot_position : option float64) : result (nat * float64 * float64) :=
  rbind (compression_search n result_parameter) (fun found =>
  let result_optimum_idx := snd found in
  rbind (plot_index result_optimum_idx scan_positions plot_position) (fun idx =>
  rbind (getitem result_parameter idx) (fun pypret_plot_parameter =>
  match plot_position with
  | None =>
      rbind (getitem scan_positions result_optimum_idx) (fun final_position =>
      Ok (idx, pypret_plot_parameter, final_position))
  | Some position => Ok (idx, pypret_plot_parameter, position)
  end))).

End Search.

End Compression.

(** ** The fundamental spectrum: selection, centre and cleaning *)
Module Fundamental.
Import Numpy Preprocess.

(** The outcome of a block that can also end in a builtin error outside of
    [exn]. *)
Inductive outcome (A : Type) : Type :=
| Done (a : A)
| Raised (e : exn)
| ZeroDivisionError
| UnboundLocalError (name : string)
| AttributeError (msg : string).
Arguments Done {A} a.
Arguments Raised {A} e.
Arguments ZeroDivisionError {A}.
Arguments UnboundLocalError {A} name.
Arguments AttributeError {A} msg.

Definition of_result {A : Type} (r : result A) : outcome A :=
  match r with
  | Ok a => Done a
  | Error e => Raised e
  end.

(** [a[mask]] where the lengths of [a] and of the mask may differ. *)
Definition boolean_index {A : Type} (mask : list bool) (a : list A)
    : result (list A) :=
  if Nat.eqb (length mask) (length a) then Ok (select mask a)
  else Error (IndexError "boolean index did not match indexed array along axis 0").

(** [np.column_stack((a, b))] of two one-dimensional arrays. *)
Definition column_stack2 (a b : list float64) : result matrix :=
  if Nat.eqb (length a) (length b)
  then Ok (map (fun ab => [fst ab; snd ab]) (combine a b))
  else Error (ValueError "all the input array dimensions except for the concatenation axis must match exactly").

(** The mask [(wavelengths > low) & (wavelengths < high)]. *)
Definition between (low high : float64) (wavelengths : list float64) : list bool :=
  map (fun w => fltb low w && fltb w high) wavelengths.

(** [get_fundamental_spectrum], lines 65-77. *)
Definition get_fundamental_spectrum (wavelengths intensities : list float64)
    (range_low range_high : float64) : result matrix :=
  rbind (boolean_index (between range_low range_high wavelengths) wavelengths)
    (fun wavelength_fund =>
  rbind (boolean_index (between range_low range_high wavelengths) intensities)
    (fun intensities_fund =>
  column_stack2 wavelength_fund intensities_fund)).

(** The builtin [sum] of an array: the elements are added to 0 from the
    left. *)
Definition py_sum (a : list float64) : float64 := fold_left fadd a (Fin 0).

(** [np.multiply(a, b)] for arrays of one length. *)
Definition np_multiply (a b : list float64) : list float64 :=
  map (fun ab => fmul (fst ab) (snd ab)) (combine a b).

(** Lines 429-431. The sum of an empty array is the integer 0, and the
    quotient of two integers 0 raises; a float divisor of zero does not. *)
Definition wavelength_raw_center (fund_wavelength fund_intensities : list float64)
    : outcome float64 :=
  match fund_intensities with
  | [] => ZeroDivisionError
  | _ => Done (fdiv (py_sum (np_multiply fund_wavelength fund_intensities))
                    (py_sum fund_intensities))
  end.

(** Lines 418-431: the fundamental is loaded and its centre computed. *)
Definition load_center (spec_fund_range : float64 * float64) (st : store)
    : store * outcome float64 :=
  match load_fundamental spec_fund_range st with
  | (st', Ok (fund_wavelength, fund_intensities)) =>
      (st', wavelength_raw_center fund_wavelength fund_intensities)
  | (st', Error e) => (st', Raised e)
  end.

(** The literal [0.0025]. *)
Definition noise_floor : float64 := Fin (1 # 400).

(** [a[a < 0.0025] = 0] *)
Definition clamp_noise (a : list float64) : list float64 :=
  map (fun x => if fltb x noise_floor then Fin 0 else x) a.

Section Cleaning.

(** [np.polyfit(x, y, 1)], as in [Preprocess]. *)
Variable polyfit : list float64 -> list float64 -> result (float64 * float64).

(** Lines 447-453: the line fitted to the first and the last 15 samples is
    subtracted, the result is divided by its largest sample and what is below
    0.0025 is set to zero. *)
Definition clean_fundamental (fund_wavelength fund_intensities : list float64)
    : result (list float64) :=
  let fund_wavelength_bkg := first_n 15 fund_wavelength ++ last_n 15 fund_wavelength in
  let fund_intensities_bkg := first_n 15 fund_intensities ++ last_n 15 fund_intensities in
  rbind (polyfit fund_wavelength_bkg fund_intensities_bkg) (fun p =>
  let fund_intensities_bkg_sub := subtract_line p fund_wavelength fund_intensities in
  rbind (np_amax [fund_intensities_bkg_sub]) (fun peak =>
  Ok (clamp_noise (map (fun x => fdiv x peak) fund_intensities_bkg_sub)))).

(** One pass of the loop of lines 498-503 on its own row. *)
Definition fit_and_subtract (scan_wavelength row : list float64)
    : result (list float64) :=
  let scan_wavelength_bkg := first_n 15 scan_wavelength ++ last_n 15 scan_wavelength in
  rbind (polyfit scan_wavelength_bkg (first_n 15 row ++ last_n 15 row)) (fun p =>
  Ok (subtract_line p scan_wavelength row)).

End Cleaning.

(** A function that may raise, applied to the elements from the left; the
    first error ends the pass. *)
Fixpoint traverse {A B : Type} (f : A -> result B) (l : list A) : result (list B) :=
  match l with
  | [] => Ok []
  | x :: rest =>
      rbind (f x) (fun y => rbind (traverse f rest) (fun ys => Ok (y :: ys)))
  end.

(** *** Predicates used to state the properties *)

Definition finite (x : float64) : Prop := exists q, x = Fin q.

(** A pair of a wavelength and an intensity whose wavelength is strictly
    inside the range, and the row that [np.column_stack] makes of a pair. *)
Definition inside (low high : float64) (wi : float64 * float64) : bool :=
  fltb low (fst wi) && fltb (fst wi) high.

Definition as_row (wi : float64 * float64) : list float64 := [fst wi; snd wi].

(** A sample of a cleaned spectrum: zero, or from 0.0025 up to 1. *)
Definition clean_sample (x : float64) : Prop :=
  x = Fin 0 \/ exists q, x = Fin q /\ (1 # 400 <= q)%Q /\ (q <= 1)%Q.

End Fundamental.

(** ** Assembling a scan array: acquisition and the old text format *)
Module Acquisition.
Import Numpy Preprocess Fundamental.

(** [np.column_stack((scan_data, column))]: the column is appended to the
    rows. A one-dimensional [scan_data] counts as one column. *)
Definition stack_column (scan_data : matrix) (column : list float64)
    : result matrix :=
  if Nat.eqb (length scan_data) (length column)
  then Ok (map (fun rc => fst rc ++ [snd rc]) (combine scan_data column))
  else Error (ValueError "all the input array dimensions except for the concatenation axis must match exactly").

(** Lines 694-702, for each scan point after the stage has answered: the
    spectrum is cut with the mask of the first wavelength axis, the position
    is put in front and the column is stacked. *)
Fixpoint acquire_loop (spec_scan_range : float64 * float64)
    (wavelength : list float64) (scan_data : matrix)
    (readings : list (float64 * list float64)) : result matrix :=
  match readings with
  | [] => Ok scan_data
  | (position, intensities) :: rest =>
      rbind (boolean_index
               (between (fst spec_scan_range) (snd spec_scan_range) wavelength)
               intensities) (fun intensities_cut =>
      rbind (stack_column scan_data (position :: intensities_cut)) (fun scan_data' =>
      acquire_loop spec_scan_range wavelength scan_data' rest))
  end.

(** [plt.contourf(x, y, z, levels)] of matplotlib for one-dimensional [x]
    and [y], as far as it accepts its arguments: [z] must have at least two
    rows and two columns, [x] one element per column of [z] and [y] one per
    row of [z]; otherwise it raises a [TypeError]. The figure itself is not
    modelled. *)
Definition contourf (x y : list float64) (z : matrix) : result unit :=
  let Ny := length z in
  let Nx := length (hd [] z) in
  if Nat.ltb Ny 2 || Nat.ltb Nx 2
  then Error (TypeError "Input z must be at least a (2, 2) shaped array")
  else if negb (Nat.eqb (length x) Nx)
  then Error (TypeError "Length of x must match number of columns in z")
  else if negb (Nat.eqb (length y) Ny)
  then Error (TypeError "Length of y must match number of rows in z")
  else Ok tt.

(** [acquire_data], lines 658-720, as far as the returned array goes. The
    stage and the spectrometer answer with [wavelength] and, per scan point,
    with the position read back and the intensities. [motor] is [None], so
    with [auto_fund] the call in the handler raises again. Without a scan
    point [scan_data] is never bound. Before the array is returned, line 715
    hands the positions, the wavelengths and the transposed block of
    intensities to [plt.contourf]. The file system is taken to accept the
    path that the array is saved to (lines 703-705). *)
Definition acquire_data (auto_fund : bool) (spec_scan_range : float64 * float64)
    (wavelength : list float64) (readings : list (float64 * list float64))
    : outcome matrix :=
  if auto_fund then AttributeError "'NoneType' object has no attribute 'move_to'"
  else
    match readings with
    | [] => UnboundLocalError "scan_data"
    | _ =>
        let wavelength_cut :=
          select (between (fst spec_scan_range) (snd spec_scan_range) wavelength)
                 wavelength in
        of_result
          (rbind (acquire_loop spec_scan_range wavelength
                    (map (fun x => [x]) (NaN :: wavelength_cut)) readings)
             (fun scan_data =>
           let scan_intensities := scan_block scan_data in
           rbind (first_row_tail scan_data) (fun scan_positions =>
           rbind (column 0 (tl scan_data)) (fun scan_wavelength =>
           rbind (contourf scan_positions scan_wavelength
                    (transpose scan_intensities)) (fun _ =>
           Ok scan_data)))))
    end.

(** [m[i, j]] *)
Definition cell (m : matrix) (i j : nat) : result float64 :=
  rbind (getitem m i) (fun row => getitem row j).

(** [PrototypeScan.load_old_text_format], lines 378-397, on the array that
    [np.loadtxt] returned for the scan. [M] has a row per column of
    [old_scan] but the first one; [np.empty] leaves [M[0, 0]] as it finds
    it, which is [junk] here. *)
Definition load_old_text_format (junk : float64) (old_scan : matrix)
    : result matrix :=
  rbind (getitem old_scan 0) (fun header =>
  match header with
  | [] | [_] => Error (IndexError "index 0 is out of bounds for axis 0 with size 0")
  | _ :: _ :: _ =>
      let body := tl old_scan in
      Ok ((junk :: map (fun row => nth 0 row NaN) body)
          :: map (fun j => nth j header NaN :: map (fun row => nth j row NaN) body)
                 (seq 2 (length header - 2)))
  end).

(** The table with the first column [first] and the further columns
    [columns]. *)
Definition table (first : list float64) (columns : list (list float64)) : matrix :=
  map (fun j => nth j first NaN :: map (fun c => nth j c NaN) columns)
      (seq 0 (length first)).

(** What [run_pypret] reads from a scan array at lines 483-485: the stage
    positions, the wavelengths, and as rows of [scan_intensities] one
    spectrum per position. *)
Definition reads_as (sd : matrix) (positions wavelengths : list float64)
    (spectra : matrix) : Prop :=
  first_row_tail sd = Ok positions /\
  column 0 (tl sd) = Ok wavelengths /\
  transpose (scan_block sd) = spectra.

End Acquisition.

(** * Properties *)

Module PiFacts.
Import PiSeries.
Local Open Scope R_scope.

Lemma Q2R_Qred (q : Q) : Q2R (Qred q) = Q2R q.
Proof. apply Qeq_eqR. apply Qred_correct. Qed.

Lemma Q2R_qpow (q : Q) (n : nat) : Q2R (qpow q n) = Q2R q ^ n.
Proof.
  induction n as [|n IH]; cbn [qpow pow].
  - unfold Q2R. simpl. lra.
  - now rewrite Q2R_Qred, Q2R_mult, IH.
Qed.

Lemma Q2R_odd (i : nat) :
  Q2R (inject_Z (Z.of_nat (2 * i + 1))) = INR (2 * i + 1).
Proof.
  unfold Q2R. cbn [Qnum Qden inject_Z]. rewrite INR_IZR_INZ. lra.
Qed.

Lemma Q2R_machin_term (i : nat) : Q2R (machin_term i) = tg_alt PI_2_3_7_tg i.
Proof.
  unfold machin_term, tg_alt, PI_2_3_7_tg, Ratan_seq.
  assert (Hk : ~ (inject_Z (Z.of_nat (2 * i + 1)) == 0)%Q).
  { unfold Qeq. cbn [Qnum Qden inject_Z]. lia. }
  rewrite Q2R_Qred, Q2R_mult, Q2R_plus, Q2R_mult, !Q2R_div, !Q2R_qpow, Q2R_odd
    by exact Hk.
  replace (Q2R (-1)) with (-1) by (unfold Q2R; simpl; lra).
  replace (Q2R 2) with 2 by (unfold Q2R; simpl; lra).
  replace (Q2R (1 # 3)) with (/ 3) by (unfold Q2R; simpl; lra).
  replace (Q2R (1 # 7)) with (/ 7) by (unfold Q2R; simpl; lra).
  reflexivity.
Qed.

Lemma Q2R_machin_sum (n : nat) :
  Q2R (machin_sum n) = sum_f_R0 (tg_alt PI_2_3_7_tg) n.
Proof.
  induction n as [|n IH]; cbn [machin_sum sum_f_R0].
  - apply Q2R_machin_term.
  - now rewrite Q2R_Qred, Q2R_plus, IH, Q2R_machin_term.
Qed.

(** pi lies between the two rational bounds. *)
Lemma PI_between : Q2R pi_lower <= PI <= Q2R pi_upper.
Proof.
  destruct (PI_2_3_7_ineq 7) as [Hlo Hhi].
  change (S (2 * 7)) with 15%nat in Hlo. change (2 * 7)%nat with 14%nat in Hhi.
  rewrite <- Q2R_machin_sum in Hlo, Hhi.
  assert (E1 : Q2R pi_lower = 4 * Q2R (machin_sum 15)).
  { transitivity (Q2R (4 * machin_sum 15)).
    - apply Qeq_eqR. vm_compute. reflexivity.
    - rewrite Q2R_mult. f_equal. unfold Q2R; simpl; lra. }
  assert (E2 : Q2R pi_upper = 4 * Q2R (machin_sum 14)).
  { transitivity (Q2R (4 * machin_sum 14)).
    - apply Qeq_eqR. vm_compute. reflexivity.
    - rewrite Q2R_mult. f_equal. unfold Q2R; simpl; lra. }
  rewrite E1, E2. lra.
Qed.

End PiFacts.

Module OpticsFacts.
Import Optics.
Local Open Scope R_scope.

Lemma get_coefficient_grating (m : Material) (w : R) :
  m = gratinga \/ m = gratingc -> get_coefficient m w = Ok 4.
Proof.
  intros [-> | ->]; unfold get_coefficient; simpl;
    f_equal; lra.
Qed.

Lemma get_coefficient_glass (m : Material) (w : R) :
  m = fs \/ m = bk7 ->
  get_coefficient m w = Ok (tan (w * PI / 180) * cos (w * PI / 360)).
Proof.
  intros [-> | ->]; reflexivity.
Qed.

Lemma Material_of_value_known (tag : string) (m : Material) :
  Material_of_value tag = Ok m -> tag = value m.
Proof.
  unfold Material_of_value.
  destruct (find _ members) as [m'|] eqn:E; [|discriminate].
  intros [= ->]. apply find_some in E. destruct E as [_ E].
  apply String.eqb_eq in E. now subst.
Qed.

Lemma Material_of_value_unknown (tag : string) :
  (forall m, tag <> value m) ->
  Material_of_value tag = Error (ValueError "not a valid Material").
Proof.
  intros H. unfold Material_of_value.
  destruct (find _ members) as [m'|] eqn:E; [|reflexivity].
  apply find_some in E. destruct E as [_ E].
  apply String.eqb_eq in E. symmetry in E. now apply H in E.
Qed.

Lemma get_coefficient_total (m : Material) (w : R) :
  is_ok (get_coefficient m w) = true.
Proof. destruct m; reflexivity. Qed.

(** C2: the grating members have coefficient 4.0 at every wedge angle; the
    glass members have tan(angle in radians) * cos(half that angle), which is
    0 for BK7 at angle 0; a tag that is the value of no member is rejected
    with a [ValueError], and no member reaches the final [raise]. *)
Theorem C2_get_coefficient :
  (forall w, get_coefficient gratinga w = Ok 4 /\ get_coefficient gratingc w = Ok 4) /\
  (forall w,
     get_coefficient fs w = Ok (tan (w * PI / 180) * cos (w * PI / 180 / 2)) /\
     get_coefficient bk7 w = Ok (tan (w * PI / 180) * cos (w * PI / 180 / 2))) /\
  get_coefficient bk7 0 = Ok 0 /\
  (forall m w, is_ok (get_coefficient m w) = true) /\
  (forall tag w,
     tag <> "FS"%string -> tag <> "BK7"%string ->
     tag <> "gratinga"%string -> tag <> "gratingc"%string ->
     exists msg, coefficient_of_tag tag w = Error (ValueError msg)).
Proof.
  repeat split.
  - apply get_coefficient_grating; auto.
  - apply get_coefficient_grating; auto.
  - rewrite (get_coefficient_glass fs) by auto.
    do 3 f_equal. field.
  - rewrite (get_coefficient_glass bk7) by auto.
    do 3 f_equal. field.
  - rewrite (get_coefficient_glass bk7) by auto.
    replace (0 * PI / 180) with 0 by field.
    replace (0 * PI / 360) with 0 by field.
    rewrite tan_0, cos_0. f_equal. ring.
  - apply get_coefficient_total.
  - intros tag w Hfs Hbk Hga Hgc. eexists.
    unfold coefficient_of_tag.
    rewrite Material_of_value_unknown; [reflexivity|].
    intros [] ->; simpl in *; congruence.
Qed.

(** C2 for a tag that no member has. *)
Lemma C2_get_coefficient_witness :
  exists msg, coefficient_of_tag "sapphire" 8 = Error (ValueError msg).
Proof.
  apply (proj2 (proj2 (proj2 (proj2 C2_get_coefficient)))); discriminate.
Defined.

(** *** The grid *)

Lemma np_round_integral (x : R) : exists k : Z, np_round x = IZR k.
Proof.
  unfold np_round.
  destruct (Rlt_dec _ _); [eauto|].
  destruct (Rlt_dec _ _); [eauto|].
  destruct (Z.even _); eauto.
Qed.

Lemma np_round_nearest (x : R) : Rabs (np_round x - x) <= 1 / 2.
Proof.
  unfold np_round.
  destruct (base_Int_part x) as [Hlo Hhi].
  rewrite plus_IZR.
  destruct (Rlt_dec _ _) as [H1|H1]; [apply Rabs_le; lra|].
  destruct (Rlt_dec _ _) as [H2|H2]; [apply Rabs_le; simpl; lra|].
  destruct (Z.even _); apply Rabs_le; simpl; lra.
Qed.

Lemma freq_bandwidth_formula (bw : Z) (c : R) :
  freq_bandwidth bw c = (IZR bw * 1e-9) * (2 * PI * 2.998e8) / c ^ 2.
Proof. unfold freq_bandwidth, Rdiv. ring. Qed.

Lemma axis_middle_bound (n bw : Z) (c : R) (g : FourierTransform) :
  (2 <= n)%Z -> create_grid n bw c = Ok g ->
  Rabs (axis_middle g) <= IZR (n - 1) / 4.
Proof.
  intros Hn [= <-]. unfold axis_middle, fund_frequency_step. simpl.
  set (B := freq_bandwidth bw c).
  assert (Hpos : 0 < IZR (n - 1)) by (apply IZR_lt; lia).
  pose proof (np_round_nearest (B / IZR (n - 1))) as Hr.
  set (d := np_round (B / IZR (n - 1))) in *.
  pose proof (Rle_abs (d - B / IZR (n - 1))) as Hup.
  pose proof (Rle_abs (- (d - B / IZR (n - 1)))) as Hdown.
  rewrite Rabs_Ropp in Hdown.
  assert (HB : B = IZR (n - 1) * (B / IZR (n - 1))) by (field; lra).
  apply Rabs_le. split; nra.
Qed.

Lemma Int_part_IZR (k : Z) : Int_part (IZR k) = k.
Proof. symmetry. apply Int_part_spec. lra. Qed.

Lemma np_round_IZR (k : Z) : np_round (IZR k) = IZR k.
Proof.
  unfold np_round. rewrite Int_part_IZR.
  destruct (Rlt_dec _ _) as [_|H]; [reflexivity|]. exfalso. apply H. lra.
Qed.

Lemma np_round_fixed (x : R) : np_round x = x <-> exists k : Z, x = IZR k.
Proof.
  split.
  - intros H. destruct (np_round_integral x) as [k Hk]. exists k. congruence.
  - intros [k ->]. apply np_round_IZR.
Qed.

Lemma axis_middle_eq (n bw : Z) (c : R) (g : FourierTransform) :
  n <> 1%Z -> create_grid n bw c = Ok g ->
  axis_middle g =
    IZR (n - 1) * (dw g - freq_bandwidth bw c / IZR (n - 1)) / 2.
Proof.
  intros Hn [= <-]. unfold axis_middle. cbn [N dw w0].
  assert (Hne : IZR (n - 1) <> 0) by (apply not_0_IZR; lia).
  field. exact Hne.
Qed.

Lemma axis_middle_zero_iff (n bw : Z) (c : R) (g : FourierTransform) :
  n <> 1%Z -> create_grid n bw c = Ok g ->
  axis_middle g = 0 <-> exists k : Z, freq_bandwidth bw c / IZR (n - 1) = IZR k.
Proof.
  intros Hn Hg. rewrite (axis_middle_eq n bw c g Hn Hg).
  injection Hg as <-. cbn [dw]. unfold fund_frequency_step.
  assert (Hne : IZR (n - 1) <> 0) by (apply not_0_IZR; lia).
  rewrite <- np_round_fixed.
  set (x := freq_bandwidth bw c / IZR (n - 1)).
  split; intros H.
  - assert (H2 : IZR (n - 1) * (np_round x - x) = 0) by lra.
    apply Rmult_integral in H2. destruct H2; [contradiction|lra].
  - rewrite H. lra.
Qed.

(** At the defaults of [run_pypret] (3000 points, 950 nm) and a centre
    wavelength of 500 nm the unrounded step is 2278480000000000/2999 pi. *)
Lemma default_step_value :
  freq_bandwidth 950 5e-7 / IZR (3000 - 1) = Q2R (2278480000000000 # 2999) * PI.
Proof.
  unfold freq_bandwidth, Q2R. cbn [Qnum Qden].
  change (3000 - 1)%Z with 2999%Z.
  assert (E : / 5e-7 ^ 2 = 4000000000000).
  { apply Rinv_eq_reg. rewrite Rinv_inv. simpl. lra. }
  unfold Rdiv at 1 2. rewrite E. lra.
Qed.

(** It lies in the upper half between two consecutive integers (it is about
    2386814281210.83). *)
Lemma default_step_between :
  IZR 2386814281210 + 1 / 2 < freq_bandwidth 950 5e-7 / IZR (3000 - 1)
    < IZR 2386814281211.
Proof.
  rewrite default_step_value.
  destruct PiFacts.PI_between as [Hlo Hhi].
  assert (Hk : 0 < Q2R (2278480000000000 # 2999)).
  { replace 0 with (Q2R 0) by (unfold Q2R; simpl; lra). apply Qlt_Rlt. reflexivity. }
  assert (H1 : Q2R (4773628562421 # 2) <
               Q2R ((2278480000000000 # 2999) * PiSeries.pi_lower)).
  { apply Qlt_Rlt. vm_compute. reflexivity. }
  assert (H2 : Q2R ((2278480000000000 # 2999) * PiSeries.pi_upper) <
               Q2R (2386814281211 # 1)).
  { apply Qlt_Rlt. vm_compute. reflexivity. }
  rewrite Q2R_mult in H1, H2.
  replace (Q2R (4773628562421 # 2)) with (IZR 2386814281210 + 1 / 2) in H1
    by (unfold Q2R; simpl; lra).
  replace (Q2R (2386814281211 # 1)) with (IZR 2386814281211) in H2
    by (unfold Q2R; simpl; lra).
  split; nra.
Qed.

Lemma default_step_not_integer (k : Z) :
  freq_bandwidth 950 5e-7 / IZR (3000 - 1) <> IZR k.
Proof.
  intros H. destruct default_step_between as [Hlo Hhi]. rewrite H in Hlo, Hhi.
  assert (Hlo' : IZR 2386814281210 < IZR k) by lra.
  apply lt_IZR in Hlo', Hhi. lia.
Qed.

(** [np.round] takes it to the integer above. *)
Lemma default_step_rounded :
  np_round (freq_bandwidth 950 5e-7 / IZR (3000 - 1)) = IZR 2386814281211.
Proof.
  destruct default_step_between as [Hlo Hhi].
  set (x := freq_bandwidth 950 5e-7 / IZR (3000 - 1)) in *.
  assert (Hf : Int_part x = 2386814281210%Z).
  { symmetry. apply Int_part_spec. lra. }
  unfold np_round. rewrite Hf.
  destruct (Rlt_dec _ _) as [H|_]; [lra|].
  destruct (Rlt_dec _ _) as [_|H]; [reflexivity|lra].
Qed.

(** C3 as stated fails: at the defaults of [run_pypret] (3000 points,
    950 nm) and a centre wavelength of 500 nm the grid is built, and the
    middle of its frequency axis is not at zero detuning, because the step
    is rounded while the offset is not. *)
Lemma C3_counterexample :
  exists g, create_grid 3000 950 5e-7 = Ok g /\ axis_middle g <> 0.
Proof.
  eexists. split; [reflexivity|].
  intros H. apply (axis_middle_zero_iff 3000 950 5e-7) in H; [|lia|reflexivity].
  destruct H as [k Hk]. exact (default_step_not_integer k Hk).
Qed.

(** C3, amended: the angular-frequency bandwidth is the wavelength bandwidth
    (in metres) times 2 pi c over the squared centre wavelength and the
    offset is minus half the bandwidth; for a point count N other than 1 and
    a centre wavelength other than 0 the step is the bandwidth over N - 1
    rounded to an integer, within 1/2 of the unrounded quotient. The grid is
    centred at zero detuning up to that rounding: for N of at least 2 the
    middle of the axis is within (N - 1) / 4 of zero, and it is at zero only
    if bandwidth / (N - 1) is an integer. *)
Theorem C3_grid_arguments (grid_points freq_bandwidth_wl : Z) (center : R) :
  grid_points <> 1%Z -> center <> 0 ->
  exists g,
    create_grid grid_points freq_bandwidth_wl center = Ok g /\
    N g = grid_points /\
    freq_bandwidth freq_bandwidth_wl center =
      (IZR freq_bandwidth_wl * 1e-9) * (2 * PI * 2.998e8) / center ^ 2 /\
    dw g = np_round (freq_bandwidth freq_bandwidth_wl center / IZR (grid_points - 1)) /\
    (exists k : Z, dw g = IZR k) /\
    Rabs (dw g - freq_bandwidth freq_bandwidth_wl center / IZR (grid_points - 1)) <= 1 / 2 /\
    w0 g = - (freq_bandwidth freq_bandwidth_wl center / 2) /\
    ((2 <= grid_points)%Z -> Rabs (axis_middle g) <= IZR (grid_points - 1) / 4) /\
    (axis_middle g = 0 ->
     exists k : Z,
       freq_bandwidth freq_bandwidth_wl center / IZR (grid_points - 1) = IZR k).
Proof.
  intros Hn Hc.
  destruct (create_grid grid_points freq_bandwidth_wl center) as [g|e] eqn:Hg;
    [|discriminate].
  exists g. split; [reflexivity|].
  pose proof (proj1 (axis_middle_zero_iff _ _ _ _ Hn Hg)) as Hzero.
  pose proof (fun H => axis_middle_bound _ _ _ _ H Hg) as Hbound.
  injection Hg as <-. cbn [N dw w0] in *.
  split; [reflexivity|].
  split; [apply freq_bandwidth_formula|].
  split; [reflexivity|].
  split; [apply np_round_integral|].
  split; [apply np_round_nearest|].
  split; [field|].
  split; [exact Hbound|exact Hzero].
Qed.

(** C3 at the defaults of [run_pypret] (3000 points, 950 nm) around 500 nm:
    the step is the integer next above the unrounded quotient, and the
    middle of the axis is off zero by less than a quarter of N - 1. *)
Lemma C3_grid_arguments_witness :
  exists g, create_grid 3000 950 5e-7 = Ok g /\
            dw g = IZR 2386814281211 /\
            w0 g = - (freq_bandwidth 950 5e-7 / 2) /\
            axis_middle g <> 0 /\
            Rabs (axis_middle g) <= IZR (3000 - 1) / 4.
Proof.
  destruct (C3_grid_arguments 3000 950 5e-7)
    as (g & Hg & _ & _ & Hdw & _ & _ & Hw0 & Hm & Hzero);
    [lia | lra |].
  exists g. split; [exact Hg|].
  split; [|split; [exact Hw0|split]].
  - rewrite Hdw. apply default_step_rounded.
  - intros H. apply Hzero in H. destruct H as [k Hk].
    exact (default_step_not_integer k Hk).
  - apply Hm. lia.
Defined.

(** C8 as stated fails: a grid of zero points and a grid with a negative
    bandwidth are both constructed. *)
Lemma C8_counterexample :
  ((0 < 2)%Z /\ exists g, create_grid 0 950 5e-7 = Ok g /\ N g = 0%Z) /\
  (freq_bandwidth (-950) 5e-7 <= 0 /\
   exists g, create_grid 3000 (-950) 5e-7 = Ok g /\ 0 < w0 g).
Proof.
  split.
  - split; [lia|]. eexists. split; reflexivity.
  - assert (HB : freq_bandwidth (-950) 5e-7 < 0).
    { unfold freq_bandwidth. pose proof PI_RGT_0 as Hpi.
      assert (Hinv : 0 < PI * / 5e-7 ^ 2).
      { apply Rmult_lt_0_compat; [exact Hpi|]. apply Rinv_0_lt_compat. lra. }
      replace (IZR (-950) * 1e-9 * 2 * PI * 2.998e8 / 5e-7 ^ 2)
        with (- (950 * 1e-9 * 2 * 2.998e8) * (PI * / 5e-7 ^ 2))
        by (unfold Rdiv; ring).
      lra. }
    split; [lra|]. eexists. split; [reflexivity|]. simpl. lra.
Qed.

(** C8, amended: the block validates neither the point count nor the
    bandwidth; for every input it hands N, the rounded step and the offset to
    the grid class. *)
Theorem C8_no_validation (grid_points freq_bandwidth_wl : Z) (center : R) :
  create_grid grid_points freq_bandwidth_wl center =
    Ok {| N := grid_points;
          dw := np_round (freq_bandwidth freq_bandwidth_wl center / IZR (grid_points - 1));
          w0 := - freq_bandwidth freq_bandwidth_wl center / 2 |} /\
  is_ok (create_grid grid_points freq_bandwidth_wl center) = true.
Proof. split; reflexivity. Qed.

(** *** The insertion axis *)

Lemma py_min_from_spec (m : R) (xs : list R) :
  In (py_min_from m xs) (m :: xs) /\
  forall x, In x (m :: xs) -> py_min_from m xs <= x.
Proof.
  revert m. induction xs as [|y ys IH]; intros m; simpl.
  - split; [now left|]. intros x [<- | []]. lra.
  - destruct (Rlt_dec y m) as [Hlt|Hge].
    + destruct (IH y) as [Hin Hle]. split.
      * right. exact Hin.
      * intros x [<- | Hx]; [|now apply Hle].
        specialize (Hle y (or_introl eq_refl)). lra.
    + destruct (IH m) as [Hin Hle]. split.
      * destruct Hin as [<- | Hin]; [now left | now right; right].
      * intros x [<- | [<- | Hx]].
        -- apply Hle. now left.
        -- specialize (Hle m (or_introl eq_refl)). lra.
        -- apply Hle. now right.
Qed.

Lemma py_min_spec (xs : list R) (m : R) :
  py_min xs = Ok m -> In m xs /\ forall x, In x xs -> m <= x.
Proof.
  destruct xs as [|x rest]; [discriminate|]. intros [= <-].
  apply py_min_from_spec.
Qed.

Lemma py_min_nonempty (xs : list R) :
  xs <> [] -> exists m, py_min xs = Ok m.
Proof. destruct xs; [congruence|]. intros _. eexists. reflexivity. Qed.

Lemma py_min_zero (xs : list R) :
  In 0 xs -> (forall x, In x xs -> 0 <= x) -> py_min xs = Ok 0.
Proof.
  intros H0 Hpos.
  destruct (py_min_nonempty xs) as [m Hm]; [intros ->; contradiction|].
  rewrite Hm. destruct (py_min_spec xs m Hm) as [Hin Hle].
  f_equal. apply Rle_antisym; [now apply Hle | now apply Hpos].
Qed.

(** Between 0 and 90 degrees the glass coefficient is not negative ... *)
Lemma glass_coefficient_nonneg (m : Material) (w coef : R) :
  0 <= w < 90 -> get_coefficient m w = Ok coef -> 0 <= coef.
Proof.
  intros [Hlo Hhi] H. pose proof PI_RGT_0 as Hpi.
  destruct m; unfold get_coefficient in H; simpl in H;
    injection H as <-; try lra.
  all: apply Rmult_le_pos;
    [ destruct (Req_dec w 0) as [-> | Hne];
      [ replace (0 * PI / 180) with 0 by field; rewrite tan_0; lra
      | left; apply tan_gt_0; nra ]
    | left; apply cos_gt_0; nra ].
Qed.

(** ... and between 90 and 180 degrees it is negative. *)
Lemma glass_coefficient_negative (m : Material) (w coef : R) :
  m = fs \/ m = bk7 -> 90 < w < 180 ->
  get_coefficient m w = Ok coef -> coef < 0.
Proof.
  intros Hm [Hlo Hhi] H. pose proof PI_RGT_0 as Hpi.
  rewrite (get_coefficient_glass m w Hm) in H. injection H as <-.
  set (y := PI - w * PI / 180).
  assert (Hy : 0 < y < PI / 2) by (unfold y; split; nra).
  assert (Hcy : 0 < cos y) by (apply cos_gt_0; lra).
  replace (w * PI / 180) with (PI - y) by (unfold y; ring).
  rewrite Rtrigo_facts.tan_pi_minus by lra.
  assert (Hty : 0 < tan y) by (apply tan_gt_0; lra).
  assert (Hc : 0 < cos (w * PI / 360)) by (apply cos_gt_0; nra).
  nra.
Qed.

Lemma insertion_axis_eq (material : Material) (w coef lowest : R)
    (scan_positions : list R) :
  get_coefficient material w = Ok coef ->
  py_min scan_positions = Ok lowest ->
  insertion_axis material w scan_positions =
    Ok (map (fun p => coef * (p - lowest)) scan_positions).
Proof. intros Hc Hm. unfold insertion_axis. now rewrite Hc, Hm. Qed.

(** C6 as stated fails: with a BK7 wedge of 135 degrees and the stage at
    0 mm and 1 mm, the lowest value of the converted axis is below zero. *)
Lemma C6_counterexample :
  exists axis lowest,
    insertion_axis bk7 135 (scan_positions_of [0; 1]) = Ok axis /\
    py_min axis = Ok lowest /\ lowest < 0.
Proof.
  destruct (get_coefficient bk7 135) as [coef|] eqn:Hc; [|discriminate].
  assert (Hneg : coef < 0).
  { apply (glass_coefficient_negative bk7 135 coef); auto. lra. }
  exists [coef * (0 * 1e-3 - 0 * 1e-3); coef * (1 * 1e-3 - 0 * 1e-3)].
  exists (coef * (1 * 1e-3 - 0 * 1e-3)).
  split; [|split].
  - unfold insertion_axis. rewrite Hc. simpl.
    destruct (Rlt_dec _ _); [lra|]. reflexivity.
  - simpl. destruct (Rlt_dec _ _); [reflexivity|lra].
  - nra.
Qed.

(** C6, amended: for a non-empty array of positions and every material and
    wedge angle the axis is coefficient * (position - lowest position), so
    zero is on the axis; it is the lowest value of the axis when the
    coefficient is not negative, as for the gratings and for a glass wedge
    of 0 to 90 degrees. *)
Theorem C6_insertion_axis (material : Material) (wedge_angle : R)
    (scan_positions : list R) :
  scan_positions <> [] ->
  exists coef lowest axis,
    get_coefficient material wedge_angle = Ok coef /\
    py_min scan_positions = Ok lowest /\
    In lowest scan_positions /\
    (forall p, In p scan_positions -> lowest <= p) /\
    insertion_axis material wedge_angle scan_positions = Ok axis /\
    axis = map (fun p => coef * (p - lowest)) scan_positions /\
    In 0 axis /\
    (0 <= coef -> py_min axis = Ok 0) /\
    (material = gratinga \/ material = gratingc \/ 0 <= wedge_angle < 90 ->
     0 <= coef).
Proof.
  intros Hne.
  destruct (get_coefficient material wedge_angle) as [coef|] eqn:Hc.
  2:{ pose proof (get_coefficient_total material wedge_angle) as H.
      rewrite Hc in H. discriminate. }
  destruct (py_min_nonempty scan_positions Hne) as [lowest Hm].
  destruct (py_min_spec _ _ Hm) as [Hin Hle].
  exists coef, lowest, (map (fun p => coef * (p - lowest)) scan_positions).
  assert (H0 : In 0 (map (fun p => coef * (p - lowest)) scan_positions)).
  { apply in_map_iff. exists lowest. split; [ring|exact Hin]. }
  repeat split; auto.
  - now apply insertion_axis_eq.
  - intros Hcoef. apply py_min_zero; [exact H0|].
    intros x Hx. apply in_map_iff in Hx. destruct Hx as (p & <- & Hp).
    specialize (Hle p Hp). nra.
  - intros [-> | [-> | Hw]].
    + rewrite get_coefficient_grating in Hc by auto. injection Hc as <-. lra.
    + rewrite get_coefficient_grating in Hc by auto. injection Hc as <-. lra.
    + now apply (glass_coefficient_nonneg material wedge_angle).
Qed.

(** C6 for fused silica at the default 8 degrees. *)
Lemma C6_insertion_axis_witness :
  exists coef axis,
    insertion_axis fs 8 (scan_positions_of [3; 1; 2]) = Ok axis /\
    0 <= coef /\ py_min axis = Ok 0.
Proof.
  destruct (C6_insertion_axis fs 8 (scan_positions_of [3; 1; 2]))
    as (coef & lowest & axis & _ & _ & _ & _ & Hax & _ & _ & Hmin & Hpos).
  - simpl. discriminate.
  - exists coef, axis.
    assert (H : 0 <= coef) by (apply Hpos; right; right; lra).
    split; [exact Hax|]. split; [exact H|]. now apply Hmin.
Defined.

End OpticsFacts.

Module NumpyFacts.
Import Numpy.

(** *** The order on float64 *)

Lemma Qlt_bool_iff (a b : Q) : Qlt_bool a b = true <-> (a < b)%Q.
Proof.
  unfold Qlt_bool. rewrite negb_true_iff. split.
  - intros H. apply Qnot_le_lt. intros Hle.
    apply Qle_bool_iff in Hle. congruence.
  - intros H. destruct (Qle_bool b a) eqn:E; [|reflexivity].
    apply Qle_bool_iff in E. exfalso. now apply (Qlt_not_le a b).
Qed.

Lemma fltb_not_nan (x y : float64) :
  fltb x y = true -> is_nan x = false /\ is_nan y = false.
Proof. destruct x, y; simpl; auto; discriminate. Qed.

Lemma fleb_refl (x : float64) : is_nan x = false -> fleb x x = true.
Proof.
  destruct x; simpl; try reflexivity; try discriminate.
  intros _. apply Qle_bool_iff. apply Qle_refl.
Qed.

Lemma fltb_fleb (x y : float64) : fltb x y = true -> fleb x y = true.
Proof.
  destruct x, y; simpl; auto.
  rewrite Qlt_bool_iff, Qle_bool_iff. apply Qlt_le_weak.
Qed.

Lemma fltb_false_fleb (x y : float64) :
  is_nan x = false -> is_nan y = false -> fltb x y = false -> fleb y x = true.
Proof.
  destruct x, y; simpl; auto; try discriminate.
  intros _ _ H. unfold Qlt_bool in H. now apply negb_false_iff in H.
Qed.

Lemma fltb_trans (x y z : float64) :
  fltb x y = true -> fltb y z = true -> fltb x z = true.
Proof.
  destruct x, y, z; simpl; auto; try discriminate.
  rewrite !Qlt_bool_iff. apply Qlt_trans.
Qed.

Lemma fltb_fleb_trans (x y z : float64) :
  fltb x y = true -> fleb y z = true -> fltb x z = true.
Proof.
  destruct x, y, z; simpl; auto; try discriminate.
  rewrite !Qlt_bool_iff, Qle_bool_iff. apply Qlt_le_trans.
Qed.

Lemma fleb_trans (x y z : float64) :
  fleb x y = true -> fleb y z = true -> fleb x z = true.
Proof.
  destruct x, y, z; simpl; auto; try discriminate.
  rewrite !Qle_bool_iff. apply Qle_trans.
Qed.

Lemma fltb_irrefl (x : float64) : fltb x x = false.
Proof.
  destruct x; simpl; auto.
  destruct (Qlt_bool q q) eqn:E; [|reflexivity].
  apply Qlt_bool_iff in E. exfalso. now apply (Qlt_irrefl q).
Qed.

(** *** [np.argmin] and [np.nanargmin] *)

Lemma argmin_loop_spec (ip : list float64) :
  forall (mp : float64) (min_ind i : nat),
    is_nan mp = false -> no_nan ip ->
    (argmin_loop mp min_ind i ip = min_ind /\
     Forall (fun x => fleb mp x = true) ip) \/
    (exists k, argmin_loop mp min_ind i ip = (i + k)%nat /\
               fltb (nth k ip NaN) mp = true /\ first_minimum ip k).
Proof.
  induction ip as [|x rest IH]; intros mp min_ind i Hmp Hnn; simpl.
  - left. split; [reflexivity|constructor].
  - inversion Hnn as [|? ? Hx Hrest]; subst. rewrite Hx.
    destruct (fltb x mp) eqn:Hlt.
    + right. destruct (IH x i (S i) Hx Hrest) as [[Hr Hall] | (k & Hr & Hk & Hlen & Hle & Hfirst)].
      * exists 0%nat. rewrite Hr. split; [lia|]. split; [exact Hlt|].
        split; [simpl; lia|]. split.
        -- intros [|j] Hj; simpl; [now apply fleb_refl|].
           rewrite Forall_forall in Hall. apply Hall. apply nth_In. simpl in Hj. lia.
        -- intros j Hj. lia.
      * exists (S k). rewrite Hr. split; [lia|]. simpl.
        split; [now apply (fltb_trans _ x)|].
        split; [simpl; lia|]. split.
        -- intros [|j] Hj; simpl; [now apply fltb_fleb|].
           apply Hle. simpl in Hj. lia.
        -- intros [|j] Hj; [exact Hk|]. apply Hfirst. lia.
    + assert (Hge : fleb mp x = true) by now apply fltb_false_fleb.
      destruct (IH mp min_ind (S i) Hmp Hrest) as [[Hr Hall] | (k & Hr & Hk & Hlen & Hle & Hfirst)].
      * left. split; [exact Hr|]. now constructor.
      * right. exists (S k). rewrite Hr. split; [lia|]. simpl.
        split; [exact Hk|].
        assert (Hkx : fltb (nth k rest NaN) x = true)
          by now apply (fltb_fleb_trans _ mp).
        split; [simpl; lia|]. split.
        -- intros [|j] Hj; simpl; [now apply fltb_fleb|].
           apply Hle. simpl in Hj. lia.
        -- intros [|j] Hj; [exact Hkx|]. apply Hfirst. lia.
Qed.

Lemma np_argmin_spec (a : list float64) :
  a <> [] -> no_nan a -> exists i, np_argmin a = Ok i /\ first_minimum a i.
Proof.
  destruct a as [|x rest]; [congruence|]. intros _ Hnn.
  inversion Hnn as [|? ? Hx Hrest]; subst. simpl. rewrite Hx.
  destruct (argmin_loop_spec rest x 0 1 Hx Hrest)
    as [[Hr Hall] | (k & Hr & Hk & Hlen & Hle & Hfirst)].
  - exists 0%nat. rewrite Hr. split; [reflexivity|].
    split; [simpl; lia|]. split.
    + intros [|j] Hj; simpl; [now apply fleb_refl|].
      rewrite Forall_forall in Hall. apply Hall. apply nth_In. simpl in Hj. lia.
    + intros j Hj. lia.
  - exists (S k). rewrite Hr. split; [reflexivity|].
    split; [simpl; lia|]. split.
    + intros [|j] Hj; simpl; [now apply fltb_fleb|].
      apply Hle. simpl in Hj. lia.
    + intros [|j] Hj; [exact Hk|]. apply Hfirst. lia.
Qed.

Lemma replace_nan_no_nan (a : list float64) : no_nan (map (replace_nan PInf) a).
Proof.
  induction a as [|x a IH]; constructor; [|exact IH].
  destruct x; reflexivity.
Qed.

Lemma replace_nan_nth (a : list float64) (j : nat) :
  (j < length a)%nat ->
  nth j (map (replace_nan PInf) a) NaN = replace_nan PInf (nth j a NaN).
Proof.
  intros Hj. rewrite (nth_indep _ NaN (replace_nan PInf NaN)) by now rewrite length_map.
  apply map_nth.
Qed.

Lemma replace_nan_defined (x : float64) :
  is_nan x = false -> replace_nan PInf x = x.
Proof. destruct x; simpl; auto; discriminate. Qed.

Lemma below_inf_not_all_nan (a : list float64) :
  Exists (fun x => fltb x PInf = true) a ->
  negb (Nat.eqb (length (map is_nan a)) 0) && forallb (fun b => b) (map is_nan a) = false.
Proof.
  intros H. apply andb_false_iff. right.
  induction H as [x a Hx | x a _ IH]; simpl.
  - destruct x; simpl in *; auto; discriminate.
  - rewrite IH. apply andb_false_r.
Qed.

Lemma np_nanargmin_spec (a : list float64) :
  Exists below_inf a ->
  exists i, np_nanargmin a = Ok i /\ first_defined_minimum a i /\
            below_inf (nth i a NaN).
Proof.
  intros Hex. unfold np_nanargmin.
  rewrite (below_inf_not_all_nan a Hex).
  assert (Hne : map (replace_nan PInf) a <> []).
  { destruct a; [inversion Hex|discriminate]. }
  destruct (np_argmin_spec _ Hne (replace_nan_no_nan a)) as (i & Hi & Hlen & Hle & Hfirst).
  rewrite length_map in Hlen, Hle.
  exists i. split; [exact Hi|].
  (* the minimum of the replaced array is below +inf, so it is no NaN *)
  assert (Hbelow : below_inf (nth i a NaN)).
  { apply Exists_exists in Hex. destruct Hex as (x & Hin & Hx).
    destruct (In_nth a x NaN Hin) as (j & Hj & Hjx).
    specialize (Hle j Hj). rewrite !replace_nan_nth in Hle by assumption.
    rewrite Hjx in Hle. unfold below_inf in *.
    destruct (nth i a NaN); simpl in *; auto.
    - destruct x; simpl in *; discriminate.
    - destruct x; simpl in *; discriminate. }
  assert (Hdef : is_nan (nth i a NaN) = false) by now apply fltb_not_nan in Hbelow.
  split; [|exact Hbelow].
  split; [exact Hlen|]. split; [exact Hdef|]. split.
  - intros j Hj Hjdef. specialize (Hle j Hj).
    rewrite !replace_nan_nth in Hle by assumption.
    now rewrite !replace_nan_defined in Hle.
  - intros j Hj Hjdef. specialize (Hfirst j Hj).
    rewrite !replace_nan_nth in Hfirst by lia.
    now rewrite !replace_nan_defined in Hfirst.
Qed.

End NumpyFacts.

Module CompressionFacts.
Import Numpy NumpyFacts Compression.

(** *** [np.roll] *)

Lemma np_roll_length {A : Type} (a : list A) (shift : Z) :
  length (np_roll a shift) = length a.
Proof.
  unfold np_roll. rewrite length_app, length_skipn, length_firstn. lia.
Qed.

Lemma np_roll_nth {A : Type} (a : list A) (shift : Z) (i : nat) (d : A) :
  (i < length a)%nat ->
  nth (Z.to_nat ((Z.of_nat i + shift) mod Z.of_nat (length a))) (np_roll a shift) d
  = nth i a d.
Proof.
  intros Hi. unfold np_roll.
  set (n := Z.of_nat (length a)).
  assert (Hn : (0 < n)%Z) by (unfold n; lia).
  pose proof (Z.mod_pos_bound (- shift) n Hn) as Hk.
  set (kz := ((- shift) mod n)%Z) in *.
  assert (Hmod : ((Z.of_nat i + shift) mod n = (Z.of_nat i - kz) mod n)%Z).
  { unfold kz. rewrite Zminus_mod_idemp_r. f_equal. lia. }
  rewrite Hmod.
  destruct (Z_le_gt_dec kz (Z.of_nat i)) as [Hge | Hlt].
  - rewrite Z.mod_small by (unfold n in *; lia).
    rewrite app_nth1 by (rewrite length_skipn; unfold n in *; lia).
    rewrite nth_skipn. f_equal. lia.
  - rewrite <- (Z_mod_plus_full _ 1 n), Z.mod_small by (unfold n in *; lia).
    rewrite app_nth2 by (rewrite length_skipn; unfold n in *; lia).
    rewrite length_skipn, nth_firstn.
    replace (Z.to_nat (Z.of_nat i - kz + 1 * n) - (length a - Z.to_nat kz))%nat
      with i by (unfold n in *; lia).
    destruct (Nat.ltb_spec i (Z.to_nat kz)); [reflexivity|lia].
Qed.

(** *** Alignment of a profile *)

Lemma argmax_loop_bound (ip : list float64) :
  forall (mp : float64) (max_ind i : nat),
    (max_ind < i)%nat -> (argmax_loop mp max_ind i ip < i + length ip)%nat.
Proof.
  induction ip as [|x rest IH]; intros mp max_ind i Hlt; simpl; [lia|].
  destruct (is_nan x); [lia|].
  destruct (fltb mp x).
  - specialize (IH x i (S i)). lia.
  - specialize (IH mp max_ind (S i)). lia.
Qed.

Lemma np_argmax_bound (a : list float64) :
  a <> [] -> exists m, np_argmax a = Ok m /\ (m < length a)%nat.
Proof.
  destruct a as [|x rest]; [congruence|]. intros _. simpl.
  destruct (is_nan x).
  - exists 0%nat. split; [reflexivity|lia].
  - eexists. split; [reflexivity|].
    pose proof (argmax_loop_bound rest x 0 1). lia.
Qed.

(** After the roll the sample that [np.argmax] found sits at index
    [result_parameter_mid_idx] (modulo the length), whatever the profile. *)
Lemma align_peak_index (n : nat) (profile : list float64) :
  length profile = n -> n <> 0%nat ->
  exists m rolled,
    np_argmax profile = Ok m /\ (m < n)%nat /\
    align n profile = Ok rolled /\ length rolled = n /\
    nth (Z.to_nat (result_parameter_mid_idx n mod Z.of_nat n)) rolled NaN
    = nth m profile NaN.
Proof.
  intros Hlen Hn.
  destruct (np_argmax_bound profile) as (m & Hm & Hbound).
  { intros ->. simpl in Hlen. congruence. }
  exists m. eexists. unfold align. rewrite Hm. simpl.
  split; [reflexivity|]. split; [lia|]. split; [reflexivity|].
  split; [now rewrite np_roll_length|].
  rewrite <- (np_roll_nth profile
                (- (Z.of_nat m - result_parameter_mid_idx n)) m NaN Hbound).
  rewrite Hlen. do 3 f_equal. lia.
Qed.

Lemma mid_idx_in_range (n : nat) :
  (3 <= n)%nat ->
  (result_parameter_mid_idx n mod Z.of_nat n = Z.of_nat n / 2 + 1)%Z.
Proof.
  intros Hn. unfold result_parameter_mid_idx.
  apply Z.mod_small.
  pose proof (Z.div_pos (Z.of_nat n) 2).
  assert (Z.of_nat n / 2 < Z.of_nat n - 1)%Z; [|lia].
  apply Z.div_lt_upper_bound; lia.
Qed.

(** C5: a profile of five samples whose peak is on the middle sample
    (index 2) is rolled by one sample, and the peak of the stored column is
    at index 3. *)
Theorem C5_peak_one_past_centre :
  let profile := [Fin 0; Fin 0; Fin 1; Fin 0; Fin 0] in
  let stored := [Fin 0; Fin 0; Fin 0; Fin 1; Fin 0] in
  np_argmax profile = Ok 2%nat /\
  result_parameter_mid_idx 5 = 3%Z /\
  align 5 profile = Ok stored /\
  np_argmax stored = Ok 3%nat.
Proof. repeat split. Qed.

(** *** The loop over the parameter axis and the selection *)

Section SearchFacts.

Variable field : Type.
Variable field_at : float64 -> field.
Variable intensity : field -> list float64.
Variable pulse_fwhm : field -> result float64.

Let record := record_fwhm field field_at pulse_fwhm.
Let loop := search_loop field field_at intensity pulse_fwhm.
Let search := compression_search field field_at intensity pulse_fwhm.

Lemma search_loop_fwhm (n : nat) (result_parameter : list float64) :
  (forall p, In p result_parameter -> intensity (field_at p) <> []) ->
  exists columns,
    loop n result_parameter = Ok (columns, map record result_parameter) /\
    length columns = length result_parameter.
Proof.
  induction result_parameter as [|p rest IH]; intros Hne; simpl.
  - exists []. split; reflexivity.
  - destruct IH as (columns & Hloop & Hlen).
    { intros q Hq. apply Hne. now right. }
    destruct (np_argmax_bound (intensity (field_at p))) as (m & Hm & _).
    { apply Hne. now left. }
    unfold align. rewrite Hm. simpl.
    rewrite Hloop. simpl.
    eexists. split; [reflexivity|]. simpl. now rewrite Hlen.
Qed.

Lemma record_nth (result_parameter : list float64) (i : nat) (p : float64) :
  nth_error result_parameter i = Some p ->
  nth i (map record result_parameter) NaN = record p.
Proof.
  intros H. apply nth_error_nth. now rewrite nth_error_map, H.
Qed.

(** The distance of a finite scan position from a finite plot position
    given in millimetres. *)
Lemma distance_Fin (s q : Q) :
  fabs (fsub (Fin s) (fmul (Fin q) milli)) =
  Fin (Qred (Qabs (Qred (s - Qred (q * (1 # 1000)))))).
Proof. reflexivity. Qed.

Lemma distance_Fin_eq (s q : Q) :
  (Qred (Qabs (Qred (s - Qred (q * (1 # 1000))))) == Qabs (s - q * (1 # 1000)))%Q.
Proof. now rewrite !Qred_correct. Qed.

Lemma nth_distance (qs : list Q) (q : Q) (j : nat) :
  (j < length qs)%nat ->
  nth j (map (fun s => fabs (fsub s (fmul (Fin q) milli))) (map Fin qs)) NaN =
  Fin (Qred (Qabs (Qred (nth j qs 0%Q - Qred (q * (1 # 1000)))))).
Proof.
  intros Hj. rewrite map_map.
  rewrite (nth_indep _ NaN (fabs (fsub (Fin 0) (fmul (Fin q) milli))))
    by now rewrite length_map.
  rewrite (map_nth (fun s => fabs (fsub (Fin s) (fmul (Fin q) milli))) qs 0%Q j).
  apply distance_Fin.
Qed.

(** [np.nanargmin] of the distances of finite positions from a finite plot
    position: the first index of a position nearest to it. *)
Lemma nearest_position (qs : list Q) (q : Q) (optimum : nat) :
  qs <> [] ->
  exists k,
    plot_index optimum (map Fin qs) (Some (Fin q)) = Ok k /\
    (k < length qs)%nat /\
    forall j, (j < length qs)%nat ->
      (Qabs (nth k qs 0 - q * (1 # 1000)) <= Qabs (nth j qs 0 - q * (1 # 1000)))%Q /\
      ((j < k)%nat ->
       (Qabs (nth k qs 0 - q * (1 # 1000)) < Qabs (nth j qs 0 - q * (1 # 1000)))%Q).
Proof.
  intros Hne. unfold plot_index.
  set (distance := fun s => fabs (fsub s (fmul (Fin q) milli))).
  destruct (np_nanargmin_spec (map distance (map Fin qs)))
    as (k & Hk & (Hlen & _ & Hle & Hfirst) & _).
  { destruct qs as [|s rest]; [congruence|]. apply Exists_cons_hd.
    cbn [map]. unfold distance. rewrite distance_Fin. reflexivity. }
  rewrite !length_map in Hlen, Hle.
  exists k. split; [exact Hk|]. split; [exact Hlen|].
  intros j Hj. split.
  - specialize (Hle j Hj). unfold distance in Hle.
    rewrite !nth_distance in Hle by assumption.
    specialize (Hle eq_refl). cbn [fleb] in Hle.
    apply Qle_bool_iff in Hle. now rewrite !distance_Fin_eq in Hle.
  - intros Hjk. specialize (Hfirst j Hjk). unfold distance in Hfirst.
    rewrite !nth_distance in Hfirst by assumption.
    specialize (Hfirst eq_refl). cbn [fltb] in Hfirst.
    apply Qlt_bool_iff in Hfirst. now rewrite !distance_Fin_eq in Hfirst.
Qed.

(** The order of two finite entries at and around a first defined minimum. *)
Lemma first_defined_minimum_Fin (a : list float64) (i j : nat) (x y : Q) :
  first_defined_minimum a i ->
  nth i a NaN = Fin x -> nth j a NaN = Fin y ->
  (x <= y)%Q /\ ((j < i)%nat -> (x < y)%Q).
Proof.
  intros (Hlen & _ & Hle & Hfirst) Hi Hj.
  assert (Hjlen : (j < length a)%nat).
  { destruct (Nat.lt_ge_cases j (length a)) as [H|H]; [exact H|].
    rewrite nth_overflow in Hj by exact H. discriminate. }
  split.
  - specialize (Hle j Hjlen). rewrite Hi, Hj in Hle.
    specialize (Hle eq_refl). now apply Qle_bool_iff in Hle.
  - intros Hji. specialize (Hfirst j Hji). rewrite Hi, Hj in Hfirst.
    specialize (Hfirst eq_refl). now apply Qlt_bool_iff in Hfirst.
Qed.

(** C1, amended: the duration recorded at each index is the one
    [pulse.fwhm] returns for the field at that index, and NaN when it
    raises. When every profile has at least one sample and at least one
    slice has a duration below +inf, the search does not abort, a slice
    whose computation failed is never selected, and the optimum is the first
    index of the smallest defined duration (for finite durations: no
    duration is smaller, and every earlier one is larger). Without a plot
    position that index is the one looked up; with a plot position the index
    looked up is the first one whose scan position is nearest to the plot
    position times 1e-3, provided some distance is below +inf (for finite
    positions s and plot position p, the first index of the smallest
    |s - p/1000|). *)
Theorem C1_compression_search (n : nat)
    (result_parameter scan_positions : list float64) :
  (forall p, In p result_parameter -> intensity (field_at p) <> []) ->
  (exists p d, In p result_parameter /\
               pulse_fwhm (field_at p) = Ok d /\ below_inf d) ->
  exists columns fwhm optimum,
    search n result_parameter = Ok (columns, fwhm, optimum) /\
    length fwhm = length result_parameter /\
    (forall i p, nth_error result_parameter i = Some p ->
       nth i fwhm NaN = match pulse_fwhm (field_at p) with
                        | Ok d => d
                        | Error _ => NaN
                        end) /\
    (forall i p e, nth_error result_parameter i = Some p ->
       pulse_fwhm (field_at p) = Error e ->
       nth i fwhm NaN = NaN /\ optimum <> i) /\
    first_defined_minimum fwhm optimum /\
    (forall j x y, nth optimum fwhm NaN = Fin x -> nth j fwhm NaN = Fin y ->
       (x <= y)%Q /\ ((j < optimum)%nat -> (x < y)%Q)) /\
    plot_index optimum scan_positions None = Ok optimum /\
    (forall position,
       let distance := fun s => fabs (fsub s (fmul position milli)) in
       Exists (fun s => below_inf (distance s)) scan_positions ->
       exists k,
         plot_index optimum scan_positions (Some position) = Ok k /\
         first_defined_minimum (map distance scan_positions) k) /\
    (forall (qs : list Q) (q : Q),
       scan_positions = map Fin qs -> qs <> [] ->
       exists k,
         plot_index optimum scan_positions (Some (Fin q)) = Ok k /\
         (k < length qs)%nat /\
         forall j, (j < length qs)%nat ->
           (Qabs (nth k qs 0 - q * (1 # 1000)) <=
            Qabs (nth j qs 0 - q * (1 # 1000)))%Q /\
           ((j < k)%nat ->
            (Qabs (nth k qs 0 - q * (1 # 1000)) <
             Qabs (nth j qs 0 - q * (1 # 1000)))%Q)).
Proof.
  intros Hne (p0 & d0 & Hin0 & Hd0 & Hbelow0).
  destruct (search_loop_fwhm n result_parameter Hne) as (columns & Hloop & _).
  assert (Hex : Exists below_inf (map record result_parameter)).
  { apply Exists_exists. exists (record p0). split.
    - now apply in_map.
    - unfold record, record_fwhm. now rewrite Hd0. }
  destruct (np_nanargmin_spec _ Hex) as (optimum & Hopt & Hmin & _).
  exists columns, (map record result_parameter), optimum.
  split.
  { unfold search, compression_search. unfold loop in Hloop.
    rewrite Hloop. simpl. now rewrite Hopt. }
  split; [apply length_map|].
  split; [intros i p Hp; now apply record_nth|].
  split.
  { intros i p e Hp He.
    assert (Hnan : nth i (map record result_parameter) NaN = NaN).
    { rewrite (record_nth _ _ _ Hp). unfold record, record_fwhm. now rewrite He. }
    split; [exact Hnan|].
    intros ->. destruct Hmin as (_ & Hdef & _). rewrite Hnan in Hdef. discriminate. }
  split; [exact Hmin|].
  split; [intros j x y; now apply first_defined_minimum_Fin|].
  split; [reflexivity|].
  split.
  { intros position distance Hnear. simpl.
    destruct (np_nanargmin_spec (map distance scan_positions)) as (k & Hk & Hkmin & _).
    { apply Exists_exists in Hnear. destruct Hnear as (s & Hs & Hsd).
      apply Exists_exists. exists (distance s). split; [now apply in_map|exact Hsd]. }
    exists k. split; [exact Hk|exact Hkmin]. }
  intros qs q -> Hqs. now apply nearest_position.
Qed.

End SearchFacts.

(** C1 as stated fails for the slices that it says are excluded. When
    [pulse.fwhm] raises at every slice the search aborts: [np.nanargmin]
    raises a [ValueError] on the all-NaN durations. And when it raises at
    the first slice and returns +inf at the second, the durations are NaN
    and +inf and the search selects index 0, the slice whose computation
    failed. *)
Lemma C1_counterexample :
  let field_at := fun p : float64 => [p; Fin 1; Fin 0] in
  let intensity := fun f : list float64 => f in
  let failing := fun _ : list float64 =>
    @Error float64 (ValueError "no width") in
  let flat := fun f : list float64 =>
    match f with
    | Fin q :: _ => if Qis_zero q then Error (ValueError "no width") else Ok PInf
    | _ => Error (ValueError "no width")
    end in
  compression_search (list float64) field_at intensity failing 3 [Fin 0; Fin 2]
    = Error (ValueError "All-NaN slice encountered") /\
  flat (field_at (Fin 0)) = Error (ValueError "no width") /\
  compression_search (list float64) field_at intensity flat 3 [Fin 0; Fin 2]
    = Ok ([[Fin 0; Fin 0; Fin 1]; [Fin 1; Fin 0; Fin 2]], [NaN; PInf], 0%nat).
Proof. intros field_at intensity failing flat. repeat split. Qed.

(** C1 on four slices, the first of which has no duration: the durations
    are NaN, 9, 7 and 7, and the search returns index 2, the first of the
    two shortest. With the stage at 0 mm, 1 mm and 2 mm and a plot position
    of 1.8 mm the index looked up is 2: the distances are 1.8 mm, 0.8 mm and
    0.2 mm, while the signed differences would have selected index 0. *)
Lemma C1_compression_search_witness :
  let pulse_fwhm := fun f : list float64 =>
    match f with
    | Fin q :: _ =>
        if Qis_zero q then Error (ValueError "no width")
        else if Qle_bool q 2 then Ok (Fin 9) else Ok (Fin 7)
    | _ => Error (ValueError "no width")
    end in
  exists columns,
    compression_search (list float64) (fun p => [p; Fin 1; Fin 0]) (fun f => f)
      pulse_fwhm 3 [Fin 0; Fin 2; Fin 4; Fin 6]
    = Ok (columns, [NaN; Fin 9; Fin 7; Fin 7], 2%nat) /\
    plot_index 2 [Fin 0; Fin (1 # 1000); Fin (2 # 1000)] (Some (Fin (9 # 5)))
    = Ok 2%nat.
Proof.
  intros pulse_fwhm.
  destruct (C1_compression_search (list float64) (fun p => [p; Fin 1; Fin 0])
              (fun f => f) pulse_fwhm 3 [Fin 0; Fin 2; Fin 4; Fin 6]
              [Fin 0; Fin (1 # 1000); Fin (2 # 1000)])
    as (columns & fwhm & optimum & Hsearch & _ & _ & _ & _ & _ & _ & _ & Hplot).
  - intros p _. discriminate.
  - exists (Fin 4), (Fin 7). split; [simpl; auto|]. split; reflexivity.
  - destruct (Hplot [0; 1 # 1000; 2 # 1000]%Q (9 # 5)%Q eq_refl) as (k & Hk & _);
      [discriminate|].
    exists columns. rewrite Hsearch. vm_compute in Hsearch.
    injection Hsearch as <- <- <-. split; [reflexivity|].
    rewrite Hk. vm_compute in Hk. now injection Hk as <-.
Defined.

End CompressionFacts.

Module PreprocessFacts.
Import Numpy NumpyFacts Preprocess.

(** *** Views of a column *)

Lemma getitem_set_nth_same (row : list float64) (j : nat) (v x : float64) :
  getitem row j = Ok x -> getitem (set_nth j v row) j = Ok v.
Proof.
  unfold getitem. revert j.
  induction row as [|y row IH]; intros [|j]; simpl; try discriminate; auto.
Qed.

Lemma getitem_set_nth_other (row : list float64) (j j' : nat) (v : float64) :
  j <> j' -> getitem (set_nth j v row) j' = getitem row j'.
Proof.
  unfold getitem. revert j j'.
  induction row as [|y row IH]; intros [|j] [|j'] Hne; simpl; auto; congruence.
Qed.

Lemma column_length (j : nat) (m : matrix) (c : list float64) :
  column j m = Ok c -> length c = length m.
Proof.
  revert c. induction m as [|row rows IH]; intros c; simpl.
  - now intros [= <-].
  - destruct (getitem row j); simpl; [|discriminate].
    destruct (column j rows) as [xs|]; simpl; [|discriminate].
    intros [= <-]. simpl. f_equal. now apply IH.
Qed.

Lemma column_set_column_same (j : nat) (m : matrix) :
  forall view vals,
    column j m = Ok view -> length vals = length m ->
    column j (set_column j vals m) = Ok vals.
Proof.
  induction m as [|row rows IH]; intros view vals Hcol Hlen.
  - destruct vals; [reflexivity|discriminate].
  - destruct vals as [|v vals]; [discriminate|]. simpl in *.
    destruct (getitem row j) as [x|] eqn:Hx; simpl in Hcol; [|discriminate].
    destruct (column j rows) as [xs|] eqn:Hxs; simpl in Hcol; [|discriminate].
    rewrite (getitem_set_nth_same row j v x Hx). simpl.
    rewrite (IH xs vals eq_refl) by lia. reflexivity.
Qed.

Lemma column_set_column_other (j j' : nat) (m : matrix) :
  j <> j' ->
  forall vals, column j' (set_column j vals m) = column j' m.
Proof.
  intros Hne. induction m as [|row rows IH]; intros vals.
  - destruct vals; reflexivity.
  - destruct vals as [|v vals]; [reflexivity|]. simpl.
    rewrite getitem_set_nth_other by assumption. now rewrite IH.
Qed.

(** *** The fundamental spectrum *)

Lemma load_fundamental_run (range : float64 * float64) (st : store)
    (wl view : list float64) :
  column 0 (fund_data st) = Ok wl ->
  column 1 (fund_data st) = Ok view ->
  let shifted := map (fun x => fsub x (np_average (first_n 7 view))) view in
  let wavelength := map (fun w => fmul w nano) wl in
  load_fundamental range st =
    ({| fund_data := set_column 1 shifted (fund_data st);
        scan_data := scan_data st |},
     Ok (select (window range wavelength) wavelength,
         select (window range wavelength) shifted)).
Proof.
  intros H0 H1 shifted wavelength.
  unfold load_fundamental, bind, read_fund, lift, write_fund, ret. simpl.
  rewrite H0, H1. simpl.
  rewrite (column_set_column_same 1 (fund_data st) view).
  - reflexivity.
  - exact H1.
  - unfold shifted. rewrite length_map. now apply column_length in H1.
Qed.

Lemma map_fixed_iff {A : Type} (f : A -> A) (l : list A) :
  map f l = l <-> Forall (fun x => f x = x) l.
Proof.
  induction l as [|x l IH]; simpl.
  - split; [constructor|reflexivity].
  - split.
    + intros [= Hx Hl]. constructor; [exact Hx|now apply IH].
    + intros H. inversion H as [|? ? Hx Hl]; subst.
      rewrite Hx. f_equal. now apply IH.
Qed.

(** C10 as stated fails where it says that the array no longer holds the
    raw intensities: when the first seven intensities are zero the offset
    is zero, and the array written back has the values it had. *)
Lemma C10_counterexample :
  let st :=
    {| fund_data := [[Fin 400; Fin 0]; [Fin 401; Fin 0]; [Fin 402; Fin 0];
                     [Fin 403; Fin 0]; [Fin 404; Fin 0]; [Fin 405; Fin 0];
                     [Fin 406; Fin 0]; [Fin 407; Fin 5]; [Fin 408; Fin 3]];
       scan_data := [] |} in
  np_average (first_n 7 [Fin 0; Fin 0; Fin 0; Fin 0; Fin 0; Fin 0; Fin 0;
                         Fin 5; Fin 3]) = Fin 0 /\
  is_ok (snd (load_fundamental (Fin 400, Fin 600) st)) = true /\
  fund_data (fst (load_fundamental (Fin 400, Fin 600) st)) = fund_data st.
Proof. intros st. repeat split. Qed.

(** C10, amended: the subtraction of line 420 goes through the view of the
    intensity column, so after the call the caller's array holds, in place
    of each intensity, that intensity minus the offset; the wavelength
    column and the scan array are as before. The offset is the sum of the
    first seven intensities over 7 (the mean of all of them when there are
    at most seven). The column holds the raw intensities again exactly when
    every subtraction returns the sample it was given. *)
Theorem C10_fund_data_written_in_place (range : float64 * float64) (st : store)
    (wl view : list float64) :
  column 0 (fund_data st) = Ok wl ->
  column 1 (fund_data st) = Ok view ->
  let offset := np_average (first_n 7 view) in
  let after := fst (load_fundamental range st) in
  is_ok (snd (load_fundamental range st)) = true /\
  column 1 (fund_data after) = Ok (map (fun x => fsub x offset) view) /\
  column 0 (fund_data after) = Ok wl /\
  scan_data after = scan_data st /\
  (forall a0 a1 a2 a3 a4 a5 a6 rest,
     view = a0 :: a1 :: a2 :: a3 :: a4 :: a5 :: a6 :: rest ->
     offset =
       fdiv (fadd (fadd (fadd (fadd (fadd (fadd (fadd (Fin 0) a0) a1) a2) a3) a4) a5) a6)
            (Fin 7)) /\
  ((length view <= 7)%nat -> offset = np_average view) /\
  (column 1 (fund_data after) = Ok view <->
   Forall (fun x => fsub x offset = x) view).
Proof.
  intros H0 H1 offset after.
  assert (Hlen : length (map (fun x => fsub x offset) view) = length (fund_data st)).
  { rewrite length_map. now apply column_length in H1. }
  assert (Hcol : column 1 (fund_data after) = Ok (map (fun x => fsub x offset) view)).
  { unfold after. rewrite (load_fundamental_run range st wl view H0 H1). simpl.
    now apply (column_set_column_same 1 (fund_data st) view). }
  split.
  { now rewrite (load_fundamental_run range st wl view H0 H1). }
  split; [exact Hcol|].
  split.
  { unfold after. rewrite (load_fundamental_run range st wl view H0 H1).
    cbn [fst fund_data]. rewrite column_set_column_other by discriminate. exact H0. }
  split.
  { unfold after. now rewrite (load_fundamental_run range st wl view H0 H1). }
  split.
  { intros a0 a1 a2 a3 a4 a5 a6 rest Hview. unfold offset. rewrite Hview.
    reflexivity. }
  split.
  { intros Hshort. unfold offset, first_n. now rewrite firstn_all2. }
  rewrite Hcol. rewrite <- map_fixed_iff. split.
  - now intros [= H].
  - now intros ->.
Qed.

(** C10 on a spectrum of nine samples whose first seven intensities are 1:
    the offset is 1, not the mean 2 of all nine, and the caller's column
    holds the intensities less 1. *)
Lemma C10_fund_data_written_in_place_witness :
  let st :=
    {| fund_data := [[Fin 400; Fin 1]; [Fin 401; Fin 1]; [Fin 402; Fin 1];
                     [Fin 403; Fin 1]; [Fin 404; Fin 1]; [Fin 405; Fin 1];
                     [Fin 406; Fin 1]; [Fin 407; Fin 9]; [Fin 408; Fin 2]];
       scan_data := [] |} in
  np_average (first_n 7 [Fin 1; Fin 1; Fin 1; Fin 1; Fin 1; Fin 1; Fin 1;
                         Fin 9; Fin 2]) = Fin 1 /\
  column 1 (fund_data (fst (load_fundamental (Fin 400, Fin 600) st)))
  = Ok [Fin 0; Fin 0; Fin 0; Fin 0; Fin 0; Fin 0; Fin 0; Fin 8; Fin 1].
Proof.
  intros st.
  destruct (C10_fund_data_written_in_place (Fin 400, Fin 600) st
              [Fin 400; Fin 401; Fin 402; Fin 403; Fin 404; Fin 405; Fin 406;
               Fin 407; Fin 408]
              [Fin 1; Fin 1; Fin 1; Fin 1; Fin 1; Fin 1; Fin 1; Fin 9; Fin 2]
              eq_refl eq_refl) as (_ & Hcol & _ & _ & Hseven & _).
  split.
  - rewrite (Hseven _ _ _ _ _ _ _ _ eq_refl). reflexivity.
  - exact Hcol.
Defined.

(** *** The scan trace: what is written and in which order *)

Lemma scan_block_write_block (f : float64 -> float64) (sd : matrix) :
  scan_block (write_block f sd) = map (map f) (scan_block sd).
Proof.
  destruct sd as [|r0 rows]; [reflexivity|].
  unfold scan_block. simpl. rewrite !map_map.
  apply map_ext. intros [|w xs]; reflexivity.
Qed.

Lemma write_block_first_row (f : float64 -> float64) (sd : matrix) :
  hd [] (write_block f sd) = hd [] sd.
Proof. destruct sd; reflexivity. Qed.

Lemma write_block_first_column (f : float64 -> float64) (sd : matrix) :
  map (hd NaN) (write_block f sd) = map (hd NaN) sd.
Proof.
  destruct sd as [|r0 rows]; [reflexivity|]. simpl. f_equal.
  rewrite map_map. apply map_ext. intros [|w xs]; reflexivity.
Qed.

Lemma transpose_map (f : float64 -> float64) (m : matrix) :
  f NaN = NaN -> transpose (map (map f) m) = map (map f) (transpose m).
Proof.
  intros Hf. destruct m as [|r rest]; [reflexivity|].
  unfold transpose. cbn [map]. rewrite length_map, map_map.
  apply map_ext. intros j. cbn [map]. rewrite !map_map. f_equal.
  - rewrite <- Hf at 1. apply map_nth.
  - apply map_ext. intros row. rewrite <- Hf at 1. apply map_nth.
Qed.

Lemma fdiv_nan (peak : float64) : fdiv NaN peak = NaN.
Proof. reflexivity. Qed.

(** [scan_normalize] either raises before it has written anything, or
    divides the block by its largest sample and returns the transposed
    quotient. *)
Lemma scan_normalize_cases (st : store) :
  (exists e, scan_normalize st = (st, Error e)) \/
  (exists r0 col0 peak,
     first_row_tail (scan_data st) = Ok r0 /\
     column 0 (tl (scan_data st)) = Ok col0 /\
     np_amax (transpose (scan_block (scan_data st))) = Ok peak /\
     scan_normalize st =
       ({| fund_data := fund_data st;
           scan_data := write_block (fun x => fdiv x peak) (scan_data st) |},
        Ok (map (fun x => fmul x milli) r0,
            map (fun w => fmul w nano) col0,
            map (map (fun x => fdiv x peak)) (transpose (scan_block (scan_data st)))))).
Proof.
  unfold scan_normalize, bind, read_scan, lift, write_scan, ret. simpl.
  destruct (first_row_tail (scan_data st)) as [r0|e] eqn:H0; [|left; eauto].
  destruct (column 0 (tl (scan_data st))) as [col0|e] eqn:H1; [|left; eauto].
  destruct (np_amax (transpose (scan_block (scan_data st)))) as [peak|e] eqn:H2;
    [|left; eauto].
  right. exists r0, col0, peak. repeat split.
  rewrite scan_block_write_block, transpose_map by apply fdiv_nan.
  reflexivity.
Qed.

Section ScanFacts.

Variable blur : matrix -> Z -> matrix.
Variable polyfit : list float64 -> list float64 -> result (float64 * float64).

(** After line 486 nothing writes to the store. *)
Lemma crop_scan_store (sigma : Z) (range : float64 * float64) (st : store) :
  fst (crop_scan blur sigma range st) = fst (scan_normalize st).
Proof.
  unfold crop_scan, bind.
  destruct (scan_normalize st) as [st' [[[pos wl] ints]|e]]; [|reflexivity].
  destruct (scan_crop range wl (gaussian_filter blur ints sigma)). reflexivity.
Qed.

Lemma load_scan_store (sigma : Z) (range : float64 * float64) (st : store) :
  fst (load_scan blur polyfit sigma range st) = fst (scan_normalize st).
Proof.
  unfold load_scan, bind. rewrite <- (crop_scan_store sigma range st).
  destruct (crop_scan blur sigma range st) as [st' [[[pos wl] ints]|e]];
    [|reflexivity].
  unfold lift, ret. destruct (subtract_background polyfit pos wl ints); reflexivity.
Qed.

Lemma load_scan_rejected (sigma : Z) (range : float64 * float64) (st : store)
    (e : exn) :
  scan_normalize st = (st, Error e) ->
  snd (load_scan blur polyfit sigma range st) = Error e.
Proof.
  intros H. unfold load_scan, crop_scan, bind. now rewrite H.
Qed.

(** C9, amended: preprocessing writes to the caller's scan array through
    the view of line 486. Whatever the filter and the fit do, afterwards
    either the array is as it was and preprocessing has raised, or the
    intensity block holds each of its samples divided by the largest sample
    of the block. The row of positions, the column of wavelengths and the
    fundamental array are unchanged. *)
Theorem C9_scan_block_divided_in_place (sigma : Z)
    (range : float64 * float64) (st : store) :
  let after := fst (load_scan blur polyfit sigma range st) in
  fund_data after = fund_data st /\
  hd [] (scan_data after) = hd [] (scan_data st) /\
  map (hd NaN) (scan_data after) = map (hd NaN) (scan_data st) /\
  ((scan_data after = scan_data st /\
    is_ok (snd (load_scan blur polyfit sigma range st)) = false) \/
   (exists peak,
      np_amax (transpose (scan_block (scan_data st))) = Ok peak /\
      scan_block (scan_data after)
      = map (map (fun x => fdiv x peak)) (scan_block (scan_data st)))).
Proof.
  intros after. unfold after. rewrite load_scan_store.
  destruct (scan_normalize_cases st) as [[e He] | (r0 & col0 & peak & _ & _ & Hp & Hn)].
  - rewrite He. simpl. repeat split; auto.
    left. split; [reflexivity|]. now rewrite (load_scan_rejected _ _ _ e He).
  - rewrite Hn. simpl.
    split; [reflexivity|].
    split; [apply write_block_first_row|].
    split; [apply write_block_first_column|].
    right. exists peak. split; [exact Hp|apply scan_block_write_block].
Qed.

(** C7, amended: the trace is scaled by the largest sample of the whole,
    uncropped block first, then filtered, and cropped to the wavelength
    window after that, so the window is applied to the scaled samples; the
    background subtraction then runs on the cropped trace. *)
Theorem C7_scaled_then_cropped (sigma : Z) (range : float64 * float64)
    (st : store) (r0 col0 : list float64) (peak : float64) :
  first_row_tail (scan_data st) = Ok r0 ->
  column 0 (tl (scan_data st)) = Ok col0 ->
  np_amax (transpose (scan_block (scan_data st))) = Ok peak ->
  let wavelength := map (fun w => fmul w nano) col0 in
  let scaled :=
    map (map (fun x => fdiv x peak)) (transpose (scan_block (scan_data st))) in
  let positions := map (fun x => fmul x milli) r0 in
  let cropped_wavelength := select (window range wavelength) wavelength in
  let cropped :=
    map (select (window range wavelength)) (gaussian_filter blur scaled sigma) in
  snd (crop_scan blur sigma range st) = Ok (positions, cropped_wavelength, cropped) /\
  snd (load_scan blur polyfit sigma range st) =
    rbind (subtract_background polyfit positions cropped_wavelength cropped)
          (fun scan_intensities =>
             Ok (positions, cropped_wavelength, scan_intensities)).
Proof.
  intros H0 H1 H2 wavelength scaled positions cropped_wavelength cropped.
  destruct (scan_normalize_cases st) as [[e He] | (r0' & col0' & peak' & H0' & H1' & H2' & Hn)].
  - exfalso. unfold scan_normalize, bind, read_scan, lift in He. simpl in He.
    rewrite H0, H1, H2 in He. simpl in He. discriminate.
  - rewrite H0 in H0'. rewrite H1 in H1'. rewrite H2 in H2'.
    injection H0' as <-. injection H1' as <-. injection H2' as <-.
    split.
    + unfold crop_scan, bind. rewrite Hn. reflexivity.
    + unfold load_scan, crop_scan, bind. rewrite Hn. cbn [scan_crop ret lift].
      fold wavelength scaled positions cropped_wavelength cropped.
      destruct (subtract_background polyfit positions cropped_wavelength cropped);
        reflexivity.
Qed.

End ScanFacts.

(** C9 as stated fails: after preprocessing, the intensity block of the
    caller's array holds the quotients by 8 and no longer the raw samples. *)
Lemma C9_counterexample :
  exists changed,
    changed <> scan_block example_scan /\
    forall blur polyfit,
      scan_block (scan_data
        (fst (load_scan blur polyfit 0 (Fin 200, Fin 300) example_store)))
      = changed.
Proof.
  exists [[Fin (1 # 4); Fin (1 # 2)]; [Fin 1; Fin (3 # 4)]].
  split; [discriminate|].
  intros blur polyfit. rewrite load_scan_store. reflexivity.
Qed.

(** C7 as stated fails: the code scales by 8, the largest sample of the
    whole block, and then crops; cropping first would scale by 4, the
    largest sample inside the window. *)
Lemma C7_counterexample :
  exists from_code from_spec_order,
    from_code <> from_spec_order /\
    spec_crop_then_scale (Fin 200, Fin 300) example_scan
    = Ok ([Fin (1 # 4000000)], from_spec_order) /\
    forall blur,
      snd (crop_scan blur 0 (Fin 200, Fin 300) example_store)
      = Ok ([Fin 0; Fin (1 # 1000)], [Fin (1 # 4000000)], from_code).
Proof.
  exists [[Fin (1 # 4)]; [Fin (1 # 2)]], [[Fin (1 # 2)]; [Fin 1]].
  split; [discriminate|]. split; [reflexivity|].
  intros blur. reflexivity.
Qed.

(** C7 on the example: the cropped samples are 2/8 and 4/8, and with a
    fitted line of slope 0 and height 1/8 the background subtraction leaves
    1/8 and 3/8. *)
Lemma C7_scaled_then_cropped_witness :
  let polyfit := fun _ _ : list float64 => Ok (Fin 0, Fin (1 # 8)) in
  snd (crop_scan (fun m _ => m) 0 (Fin 200, Fin 300) example_store)
  = Ok ([Fin 0; Fin (1 # 1000)], [Fin (1 # 4000000)],
        [[Fin (1 # 4)]; [Fin (1 # 2)]]) /\
  snd (load_scan (fun m _ => m) polyfit 0 (Fin 200, Fin 300) example_store)
  = Ok ([Fin 0; Fin (1 # 1000)], [Fin (1 # 4000000)],
        [[Fin (1 # 8)]; [Fin (3 # 8)]]).
Proof.
  intros polyfit.
  exact (C7_scaled_then_cropped (fun m _ => m) polyfit 0 (Fin 200, Fin 300)
           example_store [Fin 0; Fin 1] [Fin 250; Fin 350] (Fin 8)
           eq_refl eq_refl eq_refl).
Defined.

(** *** A trace of zeros *)

Lemma transpose_all_samples (P : float64 -> Prop) (cols : nat) (m : matrix) :
  rectangular cols m -> all_samples P m -> all_samples P (transpose m).
Proof.
  intros Hrect Hall. destruct m as [|r rest]; [constructor|].
  unfold transpose, all_samples. apply Forall_forall. intros col Hcol.
  apply in_map_iff in Hcol. destruct Hcol as (j & <- & Hj).
  apply in_seq in Hj. apply Forall_forall. intros x Hx.
  apply in_map_iff in Hx. destruct Hx as (row & <- & Hrow).
  unfold rectangular in Hrect. rewrite Forall_forall in Hrect.
  pose proof (Hrect r (or_introl eq_refl)) as Hr.
  pose proof (Hrect row Hrow) as Hlen.
  unfold all_samples in Hall. rewrite Forall_forall in Hall.
  specialize (Hall row Hrow). rewrite Forall_forall in Hall.
  apply Hall. apply nth_In. lia.
Qed.

Lemma transpose_has_sample (cols : nat) (m : matrix) :
  rectangular cols m -> cols <> 0%nat -> m <> [] -> concat (transpose m) <> [].
Proof.
  intros Hrect Hcols Hm. destruct m as [|r rest]; [congruence|].
  inversion Hrect as [|? ? Hr _]; subst.
  destruct r as [|x r]; [simpl in Hcols; congruence|].
  unfold transpose. simpl. discriminate.
Qed.

Lemma np_maximum_zero (a b : float64) :
  is_zero a = true -> is_zero b = true -> is_zero (np_maximum a b) = true.
Proof.
  intros Ha Hb. unfold np_maximum.
  destruct a; try discriminate. destruct b; try discriminate. simpl.
  now destruct (Qlt_bool q q0).
Qed.

Lemma fold_maximum_zero (rest : list float64) :
  forall x, is_zero x = true -> Forall (fun y => is_zero y = true) rest ->
            is_zero (fold_left np_maximum rest x) = true.
Proof.
  induction rest as [|y rest IH]; intros x Hx Hall; simpl; [exact Hx|].
  inversion Hall; subst. apply IH; [now apply np_maximum_zero|assumption].
Qed.

Lemma fdiv_zero_zero (x peak : float64) :
  is_zero x = true -> is_zero peak = true -> fdiv x peak = NaN.
Proof.
  destruct x; try discriminate. destruct peak; try discriminate.
  simpl. now intros -> ->.
Qed.

Lemma all_samples_map (P Q : float64 -> Prop) (f : float64 -> float64) (m : matrix) :
  (forall x, P x -> Q (f x)) -> all_samples P m -> all_samples Q (map (map f) m).
Proof.
  intros Hf Hall. unfold all_samples in *.
  apply Forall_map. eapply Forall_impl; [|exact Hall].
  intros row Hrow. apply Forall_map. eapply Forall_impl; [|exact Hrow].
  exact Hf.
Qed.

(** The trace without signal is not rejected by lines 483-486: the
    division returns, with NaN in place of every sample. *)
Lemma dark_trace_normalized :
  scan_block dark_scan = [[Fin 0; Fin 0]; [Fin 0; Fin 0]] /\
  scan_normalize dark_store =
    ({| fund_data := [];
        scan_data := [[NaN; Fin 0; Fin 1]; [Fin 250; NaN; NaN]; [Fin 260; NaN; NaN]] |},
     Ok ([Fin 0; Fin (1 # 1000)],
         [Fin (1 # 4000000); Fin (13 # 50000000)],
         [[NaN; NaN]; [NaN; NaN]])).
Proof. split; reflexivity. Qed.

(** For a trace with at least one sample whose samples are all zero, the
    scaling of line 486 raises nothing: the largest sample is zero, every
    quotient is NaN, and the trace that goes on to filtering, cropping and
    background subtraction consists of NaN only, as does the block of the
    caller's array. Whether a later stage rejects that trace is decided
    outside of this file's code. *)
Theorem zero_trace_becomes_nan (st : store) (r0 col0 : list float64)
    (cols : nat) :
  first_row_tail (scan_data st) = Ok r0 ->
  column 0 (tl (scan_data st)) = Ok col0 ->
  rectangular cols (scan_block (scan_data st)) ->
  cols <> 0%nat ->
  scan_block (scan_data st) <> [] ->
  all_samples (fun x => is_zero x = true) (scan_block (scan_data st)) ->
  exists after scan_intensities,
    scan_normalize st =
      (after, Ok (map (fun x => fmul x milli) r0,
                  map (fun w => fmul w nano) col0,
                  scan_intensities)) /\
    scan_intensities <> [] /\
    all_samples (fun x => x = NaN) scan_intensities /\
    all_samples (fun x => x = NaN) (scan_block (scan_data after)).
Proof.
  intros H0 H1 Hrect Hcols Hne Hzero.
  set (block := scan_block (scan_data st)) in *.
  pose proof (transpose_all_samples _ cols block Hrect Hzero) as Hzt.
  pose proof (transpose_has_sample cols block Hrect Hcols Hne) as Hsome.
  assert (Hpeak : exists peak, np_amax (transpose block) = Ok peak /\ is_zero peak = true).
  { unfold np_amax. unfold all_samples in Hzt. apply Forall_concat in Hzt.
    destruct (concat (transpose block)) as [|x rest]; [congruence|].
    inversion Hzt; subst. eexists. split; [reflexivity|].
    now apply fold_maximum_zero. }
  destruct Hpeak as (peak & Hpeak & Hpz).
  destruct (scan_normalize_cases st) as [[e He] | (r0' & col0' & peak' & H0' & H1' & H2' & Hn)].
  { exfalso. unfold scan_normalize, bind, read_scan, lift in He. simpl in He.
    fold block in He. rewrite H0, H1, Hpeak in He. simpl in He. discriminate. }
  fold block in H2', Hn.
  rewrite H0 in H0'. rewrite H1 in H1'. rewrite Hpeak in H2'.
  injection H0' as <-. injection H1' as <-. injection H2' as <-.
  eexists. eexists. split; [exact Hn|]. split; [|split].
  - intros Hnil. apply map_eq_nil in Hnil. rewrite Hnil in Hsome. now apply Hsome.
  - apply (all_samples_map (fun x => is_zero x = true)); [|exact Hzt].
    intros x Hx. now apply fdiv_zero_zero.
  - simpl. rewrite scan_block_write_block. fold block.
    apply (all_samples_map (fun x => is_zero x = true)); [|exact Hzero].
    intros x Hx. now apply fdiv_zero_zero.
Qed.

(** The same on the trace without signal. *)
Lemma zero_trace_becomes_nan_witness :
  exists after scan_intensities,
    scan_normalize dark_store =
      (after, Ok ([Fin 0; Fin (1 # 1000)],
                  [Fin (1 # 4000000); Fin (13 # 50000000)],
                  scan_intensities)) /\
    all_samples (fun x => x = NaN) scan_intensities.
Proof.
  destruct (zero_trace_becomes_nan dark_store [Fin 0; Fin 1]
              [Fin 250; Fin 260] 2)
    as (after & ints & Hrun & _ & Hnan & _).
  - reflexivity.
  - reflexivity.
  - repeat constructor.
  - discriminate.
  - discriminate.
  - repeat constructor.
  - exists after, ints. split; [exact Hrun|exact Hnan].
Defined.

End PreprocessFacts.

(** * Further properties of the optics block *)
Module OpticsMore.
Import Optics OpticsFacts.
Local Open Scope R_scope.

(** The value of a member looks the member up again, and no other string
    does. *)
Theorem Material_value_roundtrip :
  (forall m, Material_of_value (value m) = Ok m) /\
  (forall tag m, Material_of_value tag = Ok m <-> tag = value m).
Proof.
  assert (Hrt : forall m, Material_of_value (value m) = Ok m)
    by (intros []; reflexivity).
  split; [exact Hrt|].
  intros tag m. split.
  - apply Material_of_value_known.
  - intros ->. apply Hrt.
Qed.

Lemma Material_value_roundtrip_witness : Material_of_value "BK7" = Ok bk7.
Proof.
  apply (proj2 Material_value_roundtrip "BK7"%string bk7). reflexivity.
Defined.

(** The two glasses share one coefficient, which is an odd function of the
    wedge angle; the sign of the angle is the sign of the axis. *)
Theorem glass_coefficient_odd (w : R) :
  exists c,
    get_coefficient fs w = Ok c /\ get_coefficient bk7 w = Ok c /\
    get_coefficient fs (- w) = Ok (- c) /\ get_coefficient bk7 (- w) = Ok (- c).
Proof.
  exists (tan (w * PI / 180) * cos (w * PI / 360)).
  rewrite !(get_coefficient_glass fs), !(get_coefficient_glass bk7) by auto.
  repeat split.
  all: replace (- w * PI / 180) with (- (w * PI / 180)) by field;
       replace (- w * PI / 360) with (- (w * PI / 360)) by field;
       rewrite tan_neg, cos_neg; f_equal; ring.
Qed.

(** *** Rounding of the step *)

Lemma np_round_small (x : R) : - (1 / 2) <= x <= 1 / 2 -> np_round x = 0.
Proof.
  intros [Hlo Hhi]. unfold np_round.
  destruct (Rle_lt_dec 0 x) as [Hpos | Hneg].
  - assert (Hi : Int_part x = 0%Z) by (symmetry; apply Int_part_spec; simpl; lra).
    rewrite Hi. simpl.
    destruct (Rlt_dec _ _); [reflexivity|].
    destruct (Rlt_dec _ _); [lra|reflexivity].
  - assert (Hi : Int_part x = (-1)%Z) by (symmetry; apply Int_part_spec; simpl; lra).
    rewrite Hi. simpl.
    destruct (Rlt_dec _ _); [lra|].
    destruct (Rlt_dec _ _); [f_equal|lra].
Qed.

(** A bandwidth of at most half of N - 1 in magnitude gives the step 0:
    the grid is built all the same, with every frequency equal to [w0]. *)
Theorem grid_step_rounds_to_zero (grid_points freq_bandwidth_wl : Z) (center : R) :
  (2 <= grid_points)%Z ->
  Rabs (freq_bandwidth freq_bandwidth_wl center) <= IZR (grid_points - 1) / 2 ->
  exists g, create_grid grid_points freq_bandwidth_wl center = Ok g /\ dw g = 0.
Proof.
  intros Hn Hsmall. eexists. split; [reflexivity|].
  unfold fund_frequency_step. simpl. apply np_round_small.
  assert (Hpos : 0 < IZR (grid_points - 1)) by (apply IZR_lt; lia).
  set (B := freq_bandwidth freq_bandwidth_wl center) in *.
  pose proof (Rle_abs B) as Hup. pose proof (Rle_abs (- B)) as Hdown.
  rewrite Rabs_Ropp in Hdown.
  split.
  - apply Rmult_le_reg_r with (IZR (grid_points - 1)); [exact Hpos|].
    unfold Rdiv. rewrite Rmult_assoc, Rinv_l by lra. lra.
  - apply Rmult_le_reg_r with (IZR (grid_points - 1)); [exact Hpos|].
    unfold Rdiv. rewrite Rmult_assoc, Rinv_l by lra. lra.
Qed.

(** A bandwidth of 0 nm on the default grid. *)
Lemma grid_step_rounds_to_zero_witness :
  exists g, create_grid 3000 0 5e-7 = Ok g /\ dw g = 0.
Proof.
  apply (grid_step_rounds_to_zero 3000 0 5e-7); [lia|].
  unfold freq_bandwidth.
  replace (IZR 0 * 1e-9 * 2 * PI * 2.998e8 / 5e-7 ^ 2) with 0
    by (unfold Rdiv; ring).
  rewrite Rabs_R0. simpl. lra.
Defined.

(** *** The insertion axis *)

(** The conversion keeps the order of the positions when the coefficient is
    not negative and reverses it when the coefficient is not positive; the
    distance of two axis values is the coefficient times the distance of
    the positions. *)
Theorem insertion_axis_order (material : Material) (wedge_angle coef : R)
    (scan_positions axis : list R) (i j : nat) :
  get_coefficient material wedge_angle = Ok coef ->
  insertion_axis material wedge_angle scan_positions = Ok axis ->
  (i < length scan_positions)%nat -> (j < length scan_positions)%nat ->
  nth j axis 0 - nth i axis 0
    = coef * (nth j scan_positions 0 - nth i scan_positions 0) /\
  (0 <= coef -> nth i scan_positions 0 <= nth j scan_positions 0 ->
   nth i axis 0 <= nth j axis 0) /\
  (coef <= 0 -> nth i scan_positions 0 <= nth j scan_positions 0 ->
   nth j axis 0 <= nth i axis 0).
Proof.
  intros Hc Hax Hi Hj.
  destruct (py_min_nonempty scan_positions) as [lowest Hm].
  { intros ->. simpl in Hi. lia. }
  rewrite (insertion_axis_eq _ _ _ _ _ Hc Hm) in Hax. injection Hax as <-.
  set (f := fun p => coef * (p - lowest)).
  assert (Hnth : forall k, (k < length scan_positions)%nat ->
                   nth k (map f scan_positions) 0 = f (nth k scan_positions 0)).
  { intros k Hk. rewrite (nth_indep _ 0 (f 0)) by now rewrite length_map.
    apply map_nth. }
  rewrite (Hnth i Hi), (Hnth j Hj). unfold f.
  split; [ring|]. split; intros; nra.
Qed.

Lemma insertion_axis_order_witness :
  exists axis,
    insertion_axis gratinga 0 [3; 1] = Ok axis /\
    nth 0 axis 0 - nth 1 axis 0 = 4 * (3 - 1).
Proof.
  exists (map (fun p => 4 * (p - 1)) [3; 1]).
  assert (Hax : insertion_axis gratinga 0 [3; 1] = Ok (map (fun p => 4 * (p - 1)) [3; 1])).
  { apply insertion_axis_eq.
    - apply get_coefficient_grating. auto.
    - simpl. destruct (Rlt_dec 1 3); [reflexivity|lra]. }
  split; [exact Hax|].
  apply (insertion_axis_order gratinga 0 4 [3; 1] _ 1 0).
  - apply get_coefficient_grating. auto.
  - exact Hax.
  - simpl. lia.
  - simpl. lia.
Defined.

End OpticsMore.

(** * Further properties of the compression search *)
Module CompressionMore.
Import Numpy NumpyFacts Compression CompressionFacts.

(** *** [np.argmax] on an array without NaN *)

Lemma fleb_fltb_trans (x y z : float64) :
  fleb x y = true -> fltb y z = true -> fltb x z = true.
Proof.
  destruct x, y, z; simpl; auto; try discriminate.
  rewrite !Qlt_bool_iff, Qle_bool_iff. apply Qle_lt_trans.
Qed.

Lemma argmax_loop_spec (ip : list float64) :
  forall (mp : float64) (max_ind i : nat),
    is_nan mp = false -> no_nan ip ->
    (argmax_loop mp max_ind i ip = max_ind /\
     Forall (fun x => fleb x mp = true) ip) \/
    (exists k, argmax_loop mp max_ind i ip = (i + k)%nat /\
               (k < length ip)%nat /\
               fltb mp (nth k ip NaN) = true /\
               (forall j, (j < length ip)%nat ->
                          fleb (nth j ip NaN) (nth k ip NaN) = true) /\
               (forall j, (j < k)%nat -> fltb (nth j ip NaN) (nth k ip NaN) = true)).
Proof.
  induction ip as [|x rest IH]; intros mp max_ind i Hmp Hnn; simpl.
  - left. split; [reflexivity|constructor].
  - inversion Hnn as [|? ? Hx Hrest]; subst. rewrite Hx.
    destruct (fltb mp x) eqn:Hlt.
    + right. destruct (IH x i (S i) Hx Hrest)
        as [[Hr Hall] | (k & Hr & Hlen & Hk & Hle & Hfirst)].
      * exists 0%nat. rewrite Hr. split; [lia|]. split; [simpl; lia|].
        split; [exact Hlt|]. split.
        -- intros [|j] Hj; simpl; [now apply fleb_refl|].
           rewrite Forall_forall in Hall. apply Hall. apply nth_In. simpl in Hj. lia.
        -- intros j Hj. lia.
      * exists (S k). rewrite Hr. split; [lia|]. split; [simpl; lia|]. simpl.
        split; [now apply (fltb_trans _ x)|]. split.
        -- intros [|j] Hj; simpl; [now apply fltb_fleb|].
           apply Hle. simpl in Hj. lia.
        -- intros [|j] Hj; [exact Hk|]. apply Hfirst. lia.
    + assert (Hge : fleb x mp = true) by now apply fltb_false_fleb.
      destruct (IH mp max_ind (S i) Hmp Hrest)
        as [[Hr Hall] | (k & Hr & Hlen & Hk & Hle & Hfirst)].
      * left. split; [exact Hr|]. now constructor.
      * right. exists (S k). rewrite Hr. split; [lia|]. split; [simpl; lia|]. simpl.
        split; [exact Hk|].
        assert (Hxk : fltb x (nth k rest NaN) = true)
          by now apply (fleb_fltb_trans _ mp).
        split.
        -- intros [|j] Hj; simpl; [now apply fltb_fleb|].
           apply Hle. simpl in Hj. lia.
        -- intros [|j] Hj; [exact Hxk|]. apply Hfirst. lia.
Qed.

(** On an array without NaN, [np.argmax] returns the first index of a
    largest element; on an empty array it raises. *)
Theorem np_argmax_first_maximum (a : list float64) :
  (a = [] -> exists msg, np_argmax a = Error (ValueError msg)) /\
  (a <> [] -> no_nan a ->
   exists m, np_argmax a = Ok m /\ (m < length a)%nat /\
     (forall j, (j < length a)%nat -> fleb (nth j a NaN) (nth m a NaN) = true) /\
     (forall j, (j < m)%nat -> fltb (nth j a NaN) (nth m a NaN) = true)).
Proof.
  split; [intros ->; eexists; reflexivity|].
  destruct a as [|x rest]; [congruence|]. intros _ Hnn.
  inversion Hnn as [|? ? Hx Hrest]; subst. simpl. rewrite Hx.
  destruct (argmax_loop_spec rest x 0 1 Hx Hrest)
    as [[Hr Hall] | (k & Hr & Hlen & Hk & Hle & Hfirst)].
  - exists 0%nat. rewrite Hr. split; [reflexivity|]. split; [simpl; lia|]. split.
    + intros [|j] Hj; simpl; [now apply fleb_refl|].
      rewrite Forall_forall in Hall. apply Hall. apply nth_In. simpl in Hj. lia.
    + intros j Hj. lia.
  - exists (S k). rewrite Hr. split; [reflexivity|]. split; [simpl; lia|]. split.
    + intros [|j] Hj; simpl; [now apply fltb_fleb|].
      apply Hle. simpl in Hj. lia.
    + intros [|j] Hj; [exact Hk|]. apply Hfirst. lia.
Qed.

Lemma np_argmax_first_maximum_witness :
  exists m, np_argmax [Fin 1; Fin 3; Fin 3; Fin 2] = Ok m /\
            fltb (nth 0 [Fin 1; Fin 3; Fin 3; Fin 2] NaN)
                 (nth m [Fin 1; Fin 3; Fin 3; Fin 2] NaN) = true.
Proof.
  destruct (proj2 (np_argmax_first_maximum [Fin 1; Fin 3; Fin 3; Fin 2]))
    as (m & Hm & _ & _ & Hfirst).
  - discriminate.
  - repeat constructor.
  - exists m. split; [exact Hm|]. apply Hfirst.
    vm_compute in Hm. injection Hm as <-. lia.
Defined.

(** *** [np.roll] *)

Lemma np_roll_nth_from {A : Type} (a : list A) (shift : Z) (j : nat) (d : A) :
  (j < length a)%nat ->
  nth j (np_roll a shift) d
  = nth (Z.to_nat ((Z.of_nat j - shift) mod Z.of_nat (length a))) a d.
Proof.
  intros Hj.
  assert (Hn : (0 < Z.of_nat (length a))%Z) by lia.
  pose proof (Z.mod_pos_bound (Z.of_nat j - shift) _ Hn) as Hb.
  rewrite <- (np_roll_nth a shift (Z.to_nat ((Z.of_nat j - shift) mod Z.of_nat (length a))) d)
    by lia.
  f_equal. rewrite Z2Nat.id by lia.
  rewrite Zplus_mod_idemp_l.
  replace (Z.of_nat j - shift + shift)%Z with (Z.of_nat j) by lia.
  rewrite Z.mod_small by lia. lia.
Qed.

Lemma np_roll_nil {A : Type} (shift : Z) : np_roll (@nil A) shift = [].
Proof. unfold np_roll. now rewrite skipn_nil, firstn_nil. Qed.

(** A roll loses and repeats no sample, and the opposite roll undoes it. *)
Theorem np_roll_rotation {A : Type} (a : list A) (shift : Z) :
  Permutation (np_roll a shift) a /\
  length (np_roll a shift) = length a /\
  np_roll (np_roll a shift) (- shift) = a.
Proof.
  split; [|split].
  - unfold np_roll. rewrite Permutation_app_comm. now rewrite firstn_skipn.
  - apply np_roll_length.
  - destruct a as [|x a'] eqn:Ea.
    { now rewrite !np_roll_nil. }
    rewrite <- Ea.
    assert (Hlen : length (np_roll (np_roll a shift) (- shift)) = length a)
      by now rewrite !np_roll_length.
    apply (nth_ext _ _ x x Hlen). intros j Hj. rewrite Hlen in Hj.
    rewrite np_roll_nth_from by now rewrite np_roll_length.
    rewrite np_roll_length.
    assert (Hn : (0 < Z.of_nat (length a))%Z) by lia.
    pose proof (Z.mod_pos_bound (Z.of_nat j - - shift) _ Hn) as Hb.
    rewrite np_roll_nth_from by lia.
    f_equal. rewrite Z2Nat.id by lia.
    rewrite Zminus_mod_idemp_l.
    replace (Z.of_nat j - - shift - shift)%Z with (Z.of_nat j) by lia.
    rewrite Z.mod_small by lia. lia.
Qed.

(** *** The aligned profiles *)

(** For a profile of [n >= 3] samples without NaN the stored column is a
    rotation of the profile whose largest sample is on row
    [floor(n / 2) + 1]. *)
Lemma align_peak_row (n : nat) (profile : list float64) :
  length profile = n -> (3 <= n)%nat -> no_nan profile ->
  exists rolled,
    align n profile = Ok rolled /\ length rolled = n /\
    Permutation rolled profile /\
    forall j, (j < n)%nat ->
      fleb (nth j rolled NaN) (nth (Z.to_nat (Z.of_nat n / 2 + 1)) rolled NaN) = true.
Proof.
  intros Hlen Hn Hnn.
  destruct (align_peak_index n profile Hlen) as (m & rolled & Hm & Hmn & Hal & Hrl & Hpeak);
    [lia|].
  rewrite mid_idx_in_range in Hpeak by exact Hn.
  exists rolled. split; [exact Hal|]. split; [exact Hrl|].
  unfold align in Hal. rewrite Hm in Hal. simpl in Hal. injection Hal as Hal.
  split; [rewrite <- Hal; apply np_roll_rotation|].
  intros j Hj. rewrite Hpeak.
  destruct (proj2 (np_argmax_first_maximum profile)) as (m' & Hm' & _ & Hmax & _).
  { intros ->. simpl in Hlen. lia. }
  { exact Hnn. }
  rewrite Hm in Hm'. injection Hm' as <-.
  rewrite <- Hal, np_roll_nth_from by lia.
  apply Hmax. rewrite Hlen.
  assert (Hpos : (0 < Z.of_nat n)%Z) by lia.
  pose proof (Z.mod_pos_bound
                (Z.of_nat j - - (Z.of_nat m - result_parameter_mid_idx n))
                (Z.of_nat n) Hpos).
  lia.
Qed.

Section SearchMore.

Variable field : Type.
Variable field_at : float64 -> field.
Variable intensity : field -> list float64.
Variable pulse_fwhm : field -> result float64.

Let record := record_fwhm field field_at pulse_fwhm.
Let loop := search_loop field field_at intensity pulse_fwhm.
Let search := compression_search field field_at intensity pulse_fwhm.
Let choose := choose_plot field field_at intensity pulse_fwhm.

Lemma search_loop_columns (n : nat) (result_parameter : list float64) :
  forall columns fwhm,
    loop n result_parameter = Ok (columns, fwhm) ->
    Forall2 (fun p column => align n (intensity (field_at p)) = Ok column)
            result_parameter columns.
Proof.
  induction result_parameter as [|p rest IH]; intros columns fwhm; simpl.
  - intros [= <- <-]. constructor.
  - destruct (align n (intensity (field_at p))) as [column|] eqn:Hal; simpl;
      [|discriminate].
    fold (loop n rest).
    destruct (loop n rest) as [[cols ws]|] eqn:Hrest; simpl; [|discriminate].
    intros [= <- <-]. constructor; [exact Hal|]. now apply (IH cols ws).
Qed.

(** The columns of [result_profile]: when every profile has the [n >= 3]
    samples of the field and no NaN, the loop returns one column of [n]
    samples per parameter value, each a rotation of its profile, and in
    every column the largest sample is on the same row [floor(n / 2) + 1]. *)
Theorem result_profile_peaks_on_one_row (n : nat)
    (result_parameter : list float64) :
  (3 <= n)%nat ->
  (forall p, In p result_parameter ->
     length (intensity (field_at p)) = n /\ no_nan (intensity (field_at p))) ->
  exists columns,
    loop n result_parameter = Ok (columns, map record result_parameter) /\
    length columns = length result_parameter /\
    forall i p column,
      nth_error result_parameter i = Some p ->
      nth_error columns i = Some column ->
      length column = n /\
      Permutation column (intensity (field_at p)) /\
      forall j, (j < n)%nat ->
        fleb (nth j column NaN)
             (nth (Z.to_nat (Z.of_nat n / 2 + 1)) column NaN) = true.
Proof.
  intros Hn Hprof.
  destruct (search_loop_fwhm field field_at intensity pulse_fwhm n result_parameter)
    as (columns & Hloop & Hlen).
  { intros p Hp Hnil. destruct (Hprof p Hp) as [Hl _].
    rewrite Hnil in Hl. simpl in Hl. lia. }
  exists columns. split; [exact Hloop|]. split; [exact Hlen|].
  pose proof (search_loop_columns n result_parameter _ _ Hloop) as Hall.
  clear Hloop Hlen. revert Hprof.
  induction Hall as [|p column ps cols Hal _ IH]; intros Hprof i q col Hq Hcol.
  - destruct i; discriminate.
  - destruct i as [|i]; simpl in Hq, Hcol.
    + injection Hq as <-. injection Hcol as <-.
      destruct (Hprof p (or_introl eq_refl)) as [Hl Hnn].
      destruct (align_peak_row n _ Hl Hn Hnn) as (rolled & Hr & Hrl & Hperm & Hmax).
      rewrite Hal in Hr. injection Hr as <-. auto.
    + apply (IH (fun r Hr => Hprof r (or_intror Hr)) i q col Hq Hcol).
Qed.

(** *** When the search raises *)

Lemma np_nanargmin_all_nan (a : list float64) :
  a <> [] -> Forall (fun x => x = NaN) a ->
  np_nanargmin a = Error (ValueError "All-NaN slice encountered").
Proof.
  intros Hne Hall. unfold np_nanargmin.
  assert (Hmask : forallb (fun b => b) (map is_nan a) = true).
  { induction Hall as [|x a' -> _ IH]; [reflexivity|]. simpl.
    destruct a' as [|y a'']; [reflexivity|]. apply IH. discriminate. }
  rewrite Hmask. destruct a; [congruence|]. reflexivity.
Qed.

(** The [try] of lines 580-583 keeps a failing slice from ending the run,
    but not all of them: when [pulse.fwhm] gives no duration at any
    parameter value, line 584 raises [ValueError], and so it does without
    any parameter value; a plot position given by the caller does not
    prevent either. *)
Theorem search_raises_without_duration (n : nat)
    (result_parameter scan_positions : list float64)
    (plot_position : option float64) :
  (result_parameter = [] ->
   choose n result_parameter scan_positions plot_position
   = Error (ValueError "attempt to get argmin of an empty sequence")) /\
  (result_parameter <> [] ->
   (forall p, In p result_parameter -> intensity (field_at p) <> []) ->
   (forall p, In p result_parameter -> record p = NaN) ->
   choose n result_parameter scan_positions plot_position
   = Error (ValueError "All-NaN slice encountered")).
Proof.
  split.
  - intros ->. reflexivity.
  - intros Hne Hprof Hnan.
    destruct (search_loop_fwhm field field_at intensity pulse_fwhm n result_parameter Hprof)
      as (columns & Hloop & _).
    unfold choose, choose_plot, compression_search. rewrite Hloop. simpl.
    rewrite np_nanargmin_all_nan; [reflexivity| |].
    + intros Hnil. apply map_eq_nil in Hnil. contradiction.
    + apply Forall_forall. intros x Hx. apply in_map_iff in Hx.
      destruct Hx as (p & <- & Hp). now apply Hnan.
Qed.

(** The [try] does not cover [np.argmax]: an empty profile at any parameter
    value ends the search with the [ValueError] of [np.argmax], whatever
    [pulse.fwhm] returns. *)
Theorem search_raises_on_empty_profile (n : nat)
    (result_parameter scan_positions : list float64)
    (plot_position : option float64) :
  Exists (fun p => intensity (field_at p) = []) result_parameter ->
  choose n result_parameter scan_positions plot_position
  = Error (ValueError "attempt to get argmax of an empty sequence").
Proof.
  intros Hex.
  assert (Hloop : loop n result_parameter
                  = Error (ValueError "attempt to get argmax of an empty sequence")).
  { induction result_parameter as [|p rest IH]; [inversion Hex|]. simpl.
    destruct (intensity (field_at p)) as [|x profile] eqn:Hp.
    - reflexivity.
    - inversion Hex as [? ? H0 | ? ? Hrest]; subst; [congruence|].
      destruct (np_argmax_bound (x :: profile)) as (m & Hm & _); [discriminate|].
      unfold align. rewrite Hm. cbn [rbind].
      fold (loop n rest). now rewrite (IH Hrest). }
  unfold choose, choose_plot, compression_search. fold (loop n result_parameter).
  now rewrite Hloop.
Qed.

(** *** What is plotted *)


End SearchMore.

(** Two parameter values with the profiles [0, p, 1] on a field of three
    samples. *)
Lemma result_profile_peaks_on_one_row_witness :
  exists columns,
    search_loop (list float64) (fun p => [Fin 0; p; Fin 1]) (fun f => f)
      (fun _ => Ok (Fin 5)) 3 [Fin 2; Fin 3]
    = Ok (columns, [Fin 5; Fin 5]) /\ length columns = 2%nat.
Proof.
  destruct (result_profile_peaks_on_one_row (list float64)
              (fun p => [Fin 0; p; Fin 1]) (fun f => f) (fun _ => Ok (Fin 5))
              3 [Fin 2; Fin 3]) as (columns & Hloop & Hlen & _).
  - lia.
  - intros p [<- | [<- | []]]; split; try reflexivity; repeat constructor.
  - exists columns. split; assumption.
Defined.

(** One parameter value at which [pulse.fwhm] raises. *)
Lemma search_raises_without_duration_witness :
  choose_plot (list float64) (fun p => [p]) (fun f => f)
    (fun _ => Error (ValueError "no width")) 1 [Fin 1] [Fin 0] (Some (Fin 0))
  = Error (ValueError "All-NaN slice encountered").
Proof.
  apply (proj2 (search_raises_without_duration (list float64) (fun p => [p])
                  (fun f => f) (fun _ => Error (ValueError "no width"))
                  1 [Fin 1] [Fin 0] (Some (Fin 0)))).
  - discriminate.
  - intros p _. discriminate.
  - intros p _. reflexivity.
Defined.

(** A field without samples at the second parameter value. *)
Lemma search_raises_on_empty_profile_witness :
  choose_plot (list float64) (fun p => if is_nan p then [] else [p]) (fun f => f)
    (fun _ => Ok (Fin 5)) 1 [Fin 1; NaN] [Fin 0; Fin 1] None
  = Error (ValueError "attempt to get argmax of an empty sequence").
Proof.
  apply (search_raises_on_empty_profile (list float64)
           (fun p => if is_nan p then [] else [p]) (fun f => f)
           (fun _ => Ok (Fin 5)) 1 [Fin 1; NaN] [Fin 0; Fin 1] None).
  right. left. reflexivity.
Defined.


End CompressionMore.

(** * Properties of the fundamental spectrum *)
Module FundamentalFacts.
Import Numpy NumpyFacts Preprocess PreprocessFacts Fundamental.

(** *** Selection by a mask *)

Lemma select_length {A : Type} (mask : list bool) (a : list A) :
  length mask = length a ->
  length (select mask a) = length (filter (fun b => b) mask).
Proof.
  revert a. induction mask as [|b mask IH]; intros [|x a] Hlen; simpl in *;
    try reflexivity; try discriminate.
  destruct b; simpl; rewrite IH by lia; reflexivity.
Qed.

Lemma select_map_filter {A : Type} (f : A -> bool) (a : list A) :
  select (map f a) a = filter f a.
Proof.
  induction a as [|x a IH]; simpl; [reflexivity|].
  destruct (f x); now rewrite IH.
Qed.

Lemma select_combine {A B : Type} (mask : list bool) (a : list A) (b : list B) :
  combine (select mask a) (select mask b) = select mask (combine a b).
Proof.
  revert a b. induction mask as [|m mask IH]; intros [|x a] [|y b]; simpl;
    try reflexivity.
  - apply combine_nil.
  - destruct m; simpl; now rewrite IH.
Qed.

Lemma between_combine (low high : float64) (ws ys : list float64) :
  length ws = length ys ->
  select (between low high ws) (combine ws ys)
  = filter (inside low high) (combine ws ys).
Proof.
  revert ys. induction ws as [|w ws IH]; intros [|i ys] Hlen; simpl in *;
    try reflexivity; try discriminate.
  unfold inside at 1. simpl. rewrite IH by lia. reflexivity.
Qed.

Lemma get_fundamental_spectrum_eq (ws ys : list float64) (low high : float64) :
  length ys = length ws ->
  get_fundamental_spectrum ws ys low high
  = Ok (map as_row (filter (inside low high) (combine ws ys))).
Proof.
  intros Hlen. unfold get_fundamental_spectrum, boolean_index, between.
  rewrite !length_map, Nat.eqb_refl, Hlen, Nat.eqb_refl. simpl.
  unfold column_stack2.
  rewrite !select_length by (rewrite length_map; lia).
  rewrite Nat.eqb_refl. f_equal.
  rewrite select_combine. fold (between low high ws).
  rewrite between_combine by lia. reflexivity.
Qed.

Lemma get_fundamental_spectrum_mismatch (ws ys : list float64) (low high : float64) :
  length ys <> length ws ->
  exists msg, get_fundamental_spectrum ws ys low high = Error (IndexError msg).
Proof.
  intros Hne. unfold get_fundamental_spectrum, boolean_index, between.
  rewrite !length_map, Nat.eqb_refl. simpl.
  destruct (Nat.eqb_spec (length ws) (length ys)) as [E|_]; [congruence|].
  eexists. reflexivity.
Qed.

(** [get_fundamental_spectrum] returns, in their order, the rows
    [wavelength, intensity] of the samples whose wavelength is strictly
    inside the range, so every row that it returns has its wavelength
    strictly between the bounds; arrays of different lengths are rejected
    with an [IndexError]. *)
Theorem get_fundamental_spectrum_rows (ws ys : list float64) (low high : float64) :
  (length ys <> length ws ->
   exists msg, get_fundamental_spectrum ws ys low high = Error (IndexError msg)) /\
  (length ys = length ws ->
   exists table,
     get_fundamental_spectrum ws ys low high = Ok table /\
     table = map as_row (filter (inside low high) (combine ws ys)) /\
     forall row, In row table ->
       exists w i, row = [w; i] /\ In (w, i) (combine ws ys) /\
                   fltb low w = true /\ fltb w high = true).
Proof.
  split.
  - apply get_fundamental_spectrum_mismatch.
  - intros Hlen. eexists. split; [now apply get_fundamental_spectrum_eq|].
    split; [reflexivity|].
    intros row Hrow. apply in_map_iff in Hrow. destruct Hrow as ([w i] & <- & Hin).
    apply filter_In in Hin. destruct Hin as [Hin Hinside].
    apply andb_true_iff in Hinside. exists w, i. now repeat split.
Qed.

Lemma get_fundamental_spectrum_rows_witness :
  get_fundamental_spectrum [Fin 399; Fin 400; Fin 450; Fin 600]
                           [Fin 1; Fin 2; Fin 3; Fin 4] (Fin 400) (Fin 600)
  = Ok [[Fin 450; Fin 3]] /\
  exists msg, get_fundamental_spectrum [Fin 450] [] (Fin 400) (Fin 600)
              = Error (IndexError msg).
Proof.
  split.
  - destruct (proj2 (get_fundamental_spectrum_rows
                       [Fin 399; Fin 400; Fin 450; Fin 600]
                       [Fin 1; Fin 2; Fin 3; Fin 4] (Fin 400) (Fin 600)) eq_refl)
      as (table & Hrun & Htable & _).
    rewrite Hrun, Htable. reflexivity.
  - apply (proj1 (get_fundamental_spectrum_rows [Fin 450] [] (Fin 400) (Fin 600))).
    discriminate.
Defined.

(** Selecting again with the same range changes nothing: the columns of a
    table from [get_fundamental_spectrum] give back the table. *)
Theorem get_fundamental_spectrum_idempotent (ws ys : list float64)
    (low high : float64) (table : matrix) :
  get_fundamental_spectrum ws ys low high = Ok table ->
  exists ws' ys',
    column 0 table = Ok ws' /\ column 1 table = Ok ys' /\
    get_fundamental_spectrum ws' ys' low high = Ok table.
Proof.
  intros Hrun.
  destruct (Nat.eq_dec (length ys) (length ws)) as [Hlen|Hne].
  2:{ destruct (get_fundamental_spectrum_mismatch ws ys low high Hne) as [msg H].
      rewrite H in Hrun. discriminate. }
  rewrite get_fundamental_spectrum_eq in Hrun by exact Hlen. injection Hrun as <-.
  set (kept := filter (inside low high) (combine ws ys)).
  assert (Hcols : forall l : list (float64 * float64),
             column 0 (map as_row l) = Ok (map fst l) /\
             column 1 (map as_row l) = Ok (map snd l)).
  { induction l as [|[w i] l [IH0 IH1]]; [split; reflexivity|].
    simpl. rewrite IH0, IH1. split; reflexivity. }
  exists (map fst kept), (map snd kept).
  split; [apply Hcols|]. split; [apply Hcols|].
  rewrite get_fundamental_spectrum_eq by now rewrite !length_map.
  assert (Hcomb : combine (map fst kept) (map snd kept) = kept).
  { clear. induction kept as [|[w i] l IH]; [reflexivity|]. simpl. now rewrite IH. }
  rewrite Hcomb. unfold kept.
  assert (Hff : filter (inside low high) (filter (inside low high) (combine ws ys))
                = filter (inside low high) (combine ws ys)).
  { apply forallb_filter_id. apply forallb_forall.
    intros x Hx. apply filter_In in Hx. tauto. }
  now rewrite Hff.
Qed.

Lemma get_fundamental_spectrum_idempotent_witness :
  exists ws' ys',
    get_fundamental_spectrum ws' ys' (Fin 400) (Fin 600) = Ok [[Fin 450; Fin 3]].
Proof.
  destruct (get_fundamental_spectrum_idempotent
              [Fin 399; Fin 450] [Fin 1; Fin 3] (Fin 400) (Fin 600)
              [[Fin 450; Fin 3]] eq_refl) as (ws' & ys' & _ & _ & H).
  exists ws', ys'. exact H.
Defined.

(** *** The centre wavelength *)

Lemma Qis_zero_false (q : Q) : (0 < q)%Q -> Qis_zero q = false.
Proof.
  unfold Qlt, Qis_zero. simpl. intros H. apply Z.eqb_neq. lia.
Qed.

Lemma weighted_sums (lo hi : Q) (ws : list Q) :
  forall (ys : list Q) (a b : Q),
    length ws = length ys ->
    Forall (fun w => lo <= w /\ w <= hi)%Q ws ->
    Forall (fun y => 0 <= y)%Q ys ->
    (lo * b <= a)%Q -> (a <= hi * b)%Q ->
    exists n d,
      fold_left fadd (np_multiply (map Fin ws) (map Fin ys)) (Fin a) = Fin n /\
      fold_left fadd (map Fin ys) (Fin b) = Fin d /\
      (lo * d <= n)%Q /\ (n <= hi * d)%Q /\ (b <= d)%Q /\
      forall y, In y ys -> (b + y <= d)%Q.
Proof.
  induction ws as [|w ws IH]; intros [|y ys] a b Hlen Hws Hys Hlo Hhi;
    simpl in Hlen; try discriminate.
  - exists a, b. simpl. repeat split; auto; try Lqa.lra. intros y [].
  - inversion Hws as [|? ? [Hw1 Hw2] Hws']; subst.
    inversion Hys as [|? ? Hy Hys']; subst.
    destruct (IH ys (Qred (a + Qred (w * y))) (Qred (b + y)))
      as (n & d & Hn & Hd & H1 & H2 & H3 & H4); auto.
    + rewrite !Qred_correct. Lqa.nra.
    + rewrite !Qred_correct. Lqa.nra.
    + rewrite Qred_correct in H3.
      exists n, d. unfold np_multiply in *.
      cbn [map combine fold_left fst snd].
      change (fadd (Fin a) (fmul (Fin w) (Fin y)))
        with (Fin (Qred (a + Qred (w * y)))).
      change (fadd (Fin b) (Fin y)) with (Fin (Qred (b + y))).
      rewrite Hn, Hd.
      repeat split; auto; try Lqa.lra.
      intros y0 [<- | Hy0]; [Lqa.lra|].
      specialize (H4 y0 Hy0). rewrite Qred_correct in H4. Lqa.lra.
Qed.

(** For intensities that are not negative and not all zero, the centre
    wavelength is a number between the smallest and the largest wavelength
    of the selection (in exact arithmetic). *)
Theorem wavelength_raw_center_between (lo hi : Q) (ws ys : list Q) :
  length ws = length ys ->
  Forall (fun w => lo <= w /\ w <= hi)%Q ws ->
  Forall (fun y => 0 <= y)%Q ys ->
  (exists y, In y ys /\ 0 < y)%Q ->
  exists c, wavelength_raw_center (map Fin ws) (map Fin ys) = Done (Fin c) /\
            (lo <= c)%Q /\ (c <= hi)%Q.
Proof.
  intros Hlen Hws Hys (y0 & Hy0 & Hpos).
  destruct (weighted_sums lo hi ws ys 0 0 Hlen Hws Hys)
    as (n & d & Hn & Hd & H1 & H2 & _ & H4); try Lqa.lra.
  specialize (H4 y0 Hy0).
  assert (Hd0 : (0 < d)%Q) by Lqa.lra.
  exists (Qred (n / d)).
  unfold wavelength_raw_center, py_sum. rewrite Hn, Hd.
  destruct ys as [|y ys]; [contradiction|]. cbn [map]. unfold fdiv.
  rewrite (Qis_zero_false d Hd0).
  split; [reflexivity|]. rewrite Qred_correct. split.
  - apply Qle_shift_div_l; assumption.
  - apply Qle_shift_div_r; assumption.
Qed.

Lemma wavelength_raw_center_between_witness :
  exists c, wavelength_raw_center [Fin 400; Fin 500] [Fin 1; Fin 3] = Done (Fin c) /\
            (400 <= c)%Q /\ (c <= 500)%Q.
Proof.
  apply (wavelength_raw_center_between 400 500 [400; 500] [1; 3])%Q.
  - reflexivity.
  - repeat constructor; simpl; Lqa.lra.
  - repeat constructor; simpl; Lqa.lra.
  - exists 1%Q. split; [now left|Lqa.lra].
Defined.

Lemma select_all_false {A : Type} (mask : list bool) (a : list A) :
  Forall (fun b => b = false) mask -> select mask a = [].
Proof.
  intros H. revert a. induction H as [|b mask -> _ IH]; intros [|x a]; simpl; auto.
Qed.

(** A range that contains no wavelength of the fundamental leaves nothing to
    average: line 429 divides the integer 0 by the integer 0 and raises
    [ZeroDivisionError], after line 420 has already written to the caller's
    array. *)
Theorem empty_window_raises_zero_division (range : float64 * float64)
    (st : store) (wl view : list float64) :
  column 0 (fund_data st) = Ok wl ->
  column 1 (fund_data st) = Ok view ->
  Forall (fun b => b = false) (window range (map (fun w => fmul w nano) wl)) ->
  snd (load_center range st) = ZeroDivisionError /\
  column 1 (fund_data (fst (load_center range st)))
  = Ok (map (fun x => fsub x (np_average (first_n 7 view))) view).
Proof.
  intros H0 H1 Hout. unfold load_center.
  rewrite (load_fundamental_run range st wl view H0 H1).
  rewrite !select_all_false by exact Hout. simpl.
  split; [reflexivity|].
  apply (column_set_column_same 1 (fund_data st) view _ H1).
  rewrite length_map. now apply column_length in H1.
Qed.

Lemma empty_window_raises_zero_division_witness :
  snd (load_center (Fin 400, Fin 600)
         {| fund_data := [[Fin 700; Fin 1]; [Fin 701; Fin 2]]; scan_data := [] |})
  = ZeroDivisionError.
Proof.
  apply (empty_window_raises_zero_division (Fin 400, Fin 600)
           {| fund_data := [[Fin 700; Fin 1]; [Fin 701; Fin 2]]; scan_data := [] |}
           [Fin 700; Fin 701] [Fin 1; Fin 2]).
  - reflexivity.
  - reflexivity.
  - repeat constructor.
Defined.

(** [load_fundamental] either raises an [IndexError] without having written
    anything, or returns as many wavelengths as intensities, all of them
    strictly inside the range (in metres). *)
Theorem load_fundamental_outcome (range : float64 * float64) (st : store) :
  (exists e, load_fundamental range st = (st, Error e)) \/
  (exists fund_wavelength fund_intensities,
     snd (load_fundamental range st) = Ok (fund_wavelength, fund_intensities) /\
     length fund_wavelength = length fund_intensities /\
     forall w, In w fund_wavelength ->
       fltb (fmul (fst range) nano) w = true /\
       fltb w (fmul (snd range) nano) = true).
Proof.
  destruct (column 0 (fund_data st)) as [wl|e] eqn:H0.
  2:{ left. exists e. unfold load_fundamental, bind, read_fund, lift. simpl.
      now rewrite H0. }
  destruct (column 1 (fund_data st)) as [view|e] eqn:H1.
  2:{ left. exists e. unfold load_fundamental, bind, read_fund, lift. simpl.
      now rewrite H0, H1. }
  right. rewrite (load_fundamental_run range st wl view H0 H1). simpl.
  eexists. eexists. split; [reflexivity|].
  assert (Hl0 : length wl = length (fund_data st)) by now apply column_length in H0.
  assert (Hl1 : length view = length (fund_data st)) by now apply column_length in H1.
  split.
  - rewrite !select_length; [reflexivity| |]; unfold window; rewrite !length_map; lia.
  - intros w Hw. unfold window in Hw. rewrite select_map_filter in Hw.
    apply filter_In in Hw. destruct Hw as [_ Hw]. now apply andb_true_iff in Hw.
Qed.

Lemma load_fundamental_outcome_witness :
  exists fund_wavelength fund_intensities,
    snd (load_fundamental (Fin 400, Fin 600) example_store)
    = Ok (fund_wavelength, fund_intensities) /\
    length fund_wavelength = length fund_intensities.
Proof.
  destruct (load_fundamental_outcome (Fin 400, Fin 600) example_store)
    as [[e He] | (wl & ints & Hrun & Hlen & _)].
  - vm_compute in He. discriminate.
  - exists wl, ints. split; assumption.
Defined.

(** *** The largest sample and the scaling by it *)

Lemma finite_no_nan (a : list float64) : Forall finite a -> no_nan a.
Proof.
  intros H. eapply Forall_impl; [|exact H]. now intros x [q ->].
Qed.

Lemma np_maximum_cases (a b : float64) :
  is_nan a = false -> is_nan b = false ->
  (np_maximum a b = a \/ np_maximum a b = b) /\
  fleb a (np_maximum a b) = true /\ fleb b (np_maximum a b) = true.
Proof.
  intros Ha Hb. unfold np_maximum. rewrite Ha, Hb.
  destruct (fltb a b) eqn:Hlt.
  - split; [now right|]. split; [now apply fltb_fleb|now apply fleb_refl].
  - split; [now left|]. split; [now apply fleb_refl|now apply fltb_false_fleb].
Qed.

Lemma fold_maximum_spec (rest : list float64) :
  forall x, is_nan x = false -> no_nan rest ->
    In (fold_left np_maximum rest x) (x :: rest) /\
    forall y, In y (x :: rest) -> fleb y (fold_left np_maximum rest x) = true.
Proof.
  induction rest as [|z rest IH]; intros x Hx Hnn; simpl.
  - split; [now left|]. intros y [<- | []]. now apply fleb_refl.
  - inversion Hnn as [|? ? Hz Hrest]; subst.
    destruct (np_maximum_cases x z Hx Hz) as (Hcase & Hxm & Hzm).
    assert (Hm : is_nan (np_maximum x z) = false) by (destruct Hcase as [-> | ->]; assumption).
    destruct (IH (np_maximum x z) Hm Hrest) as [Hin Hle]. split.
    + destruct Hin as [Hin | Hin]; [|now right; right].
      rewrite <- Hin. destruct Hcase as [-> | ->]; [now left|now right; left].
    + intros y [<- | [<- | Hy]].
      * apply (fleb_trans _ (np_maximum x z)); [exact Hxm|]. apply Hle. now left.
      * apply (fleb_trans _ (np_maximum x z)); [exact Hzm|]. apply Hle. now left.
      * apply Hle. now right.
Qed.

Lemma np_amax_spec (m : matrix) :
  no_nan (concat m) -> concat m <> [] ->
  exists peak, np_amax m = Ok peak /\ In peak (concat m) /\
               forall y, In y (concat m) -> fleb y peak = true.
Proof.
  intros Hnn Hne. unfold np_amax.
  destruct (concat m) as [|x rest]; [congruence|].
  inversion Hnn as [|? ? Hx Hrest]; subst.
  destruct (fold_maximum_spec rest x Hx Hrest) as [Hin Hle].
  eexists. split; [reflexivity|]. split; assumption.
Qed.

Lemma Qred_self_quotient (m : Q) : (0 < m)%Q -> Qred (m / m) = 1%Q.
Proof.
  intros Hm. change 1%Q with (Qred 1). apply Qred_complete.
  unfold Qdiv. apply Qmult_inv_r. Lqa.lra.
Qed.

(** A number that is not above a positive peak, divided by the peak, is a
    number of at most 1. *)
Lemma fdiv_by_peak (a m : Q) :
  (0 < m)%Q -> fleb (Fin a) (Fin m) = true ->
  fdiv (Fin a) (Fin m) = Fin (Qred (a / m)) /\ (Qred (a / m) <= 1)%Q.
Proof.
  intros Hm Hle. simpl in Hle. apply Qle_bool_iff in Hle.
  unfold fdiv. rewrite (Qis_zero_false m Hm). split; [reflexivity|].
  rewrite Qred_correct. apply Qle_shift_div_r; [exact Hm|]. Lqa.lra.
Qed.

(** *** The cleaned fundamental *)

Section CleaningFacts.

Variable polyfit : list float64 -> list float64 -> result (float64 * float64).

(** When the fit returns and the spectrum minus the fitted line consists of
    numbers, one of them positive, the cleaned spectrum has the same length,
    every sample of it is either 0 or between 0.0025 and 1, and its peak is
    exactly 1. *)
Theorem clean_fundamental_range (fund_wavelength fund_intensities : list float64)
    (p : float64 * float64) :
  polyfit (first_n 15 fund_wavelength ++ last_n 15 fund_wavelength)
          (first_n 15 fund_intensities ++ last_n 15 fund_intensities) = Ok p ->
  Forall finite (subtract_line p fund_wavelength fund_intensities) ->
  (exists q, In (Fin q) (subtract_line p fund_wavelength fund_intensities) /\ 0 < q)%Q ->
  exists cleaned,
    clean_fundamental polyfit fund_wavelength fund_intensities = Ok cleaned /\
    length cleaned = length (subtract_line p fund_wavelength fund_intensities) /\
    Forall clean_sample cleaned /\
    In (Fin 1) cleaned.
Proof.
  intros Hfit Hfin (q0 & Hq0 & Hpos).
  set (sub := subtract_line p fund_wavelength fund_intensities) in *.
  destruct (np_amax_spec [sub]) as (peak & Hpeak & Hin & Hmax).
  { simpl. rewrite app_nil_r. now apply finite_no_nan. }
  { simpl. rewrite app_nil_r. intros E. rewrite E in Hq0. contradiction. }
  simpl in Hin, Hmax. rewrite app_nil_r in Hin, Hmax.
  rewrite Forall_forall in Hfin.
  destruct (Hfin peak Hin) as [m ->].
  assert (Hm : (0 < m)%Q).
  { specialize (Hmax _ Hq0). simpl in Hmax. apply Qle_bool_iff in Hmax. Lqa.lra. }
  eexists. unfold clean_fundamental. rewrite Hfit. cbn [rbind]. fold sub.
  rewrite Hpeak. cbn [rbind]. split; [reflexivity|].
  split; [unfold clamp_noise; now rewrite !length_map|]. split.
  - unfold clamp_noise. apply Forall_forall. intros x Hx.
    apply in_map_iff in Hx. destruct Hx as (y & <- & Hy).
    apply in_map_iff in Hy. destruct Hy as (z & <- & Hz).
    destruct (Hfin z Hz) as [a ->].
    destruct (fdiv_by_peak a m Hm (Hmax _ Hz)) as [-> Hle].
    destruct (fltb (Fin (Qred (a / m))) noise_floor) eqn:Hnoise; [now left|].
    right. eexists. split; [reflexivity|]. split; [|exact Hle].
    simpl in Hnoise. unfold Qlt_bool in Hnoise.
    apply negb_false_iff in Hnoise. now apply Qle_bool_iff in Hnoise.
  - unfold clamp_noise. apply in_map_iff. exists (Fin 1). split; [reflexivity|].
    apply in_map_iff. exists (Fin m). split; [|exact Hin].
    unfold fdiv. rewrite (Qis_zero_false m Hm). now rewrite Qred_self_quotient.
Qed.

End CleaningFacts.

(** A spectrum of three samples on a flat background of 1. *)
Lemma clean_fundamental_range_witness :
  clean_fundamental (fun _ _ => Ok (Fin 0, Fin 1))
    [Fin 400; Fin 500; Fin 600] [Fin 1; Fin 5; Fin (1001 # 1000)]
  = Ok [Fin 0; Fin 1; Fin 0].
Proof.
  destruct (clean_fundamental_range (fun _ _ => Ok (Fin 0, Fin 1))
              [Fin 400; Fin 500; Fin 600] [Fin 1; Fin 5; Fin (1001 # 1000)]
              (Fin 0, Fin 1) eq_refl) as (cleaned & Hrun & _).
  - repeat constructor; eexists; reflexivity.
  - exists 4%Q. split; [vm_compute; auto|reflexivity].
  - rewrite Hrun. vm_compute in Hrun. now injection Hrun as <-.
Defined.

End FundamentalFacts.

(** * Further properties of the scan trace *)
Module ScanMore.
Import Numpy NumpyFacts Preprocess PreprocessFacts Fundamental FundamentalFacts.

(** *** Scaling to unit peak *)

Lemma transpose_in_iff (cols : nat) (m : matrix) (x : float64) :
  rectangular cols m ->
  In x (concat (transpose m)) <-> In x (concat m).
Proof.
  intros Hrect. unfold rectangular in Hrect. rewrite Forall_forall in Hrect.
  destruct m as [|r rest]; [reflexivity|].
  pose proof (Hrect r (or_introl eq_refl)) as Hr.
  unfold transpose. rewrite !in_concat. split.
  - intros (col & Hcol & Hx). apply in_map_iff in Hcol.
    destruct Hcol as (j & <- & Hj). apply in_seq in Hj.
    apply in_map_iff in Hx. destruct Hx as (row & <- & Hrow).
    exists row. split; [exact Hrow|]. apply nth_In. rewrite (Hrect row Hrow). lia.
  - intros (row & Hrow & Hx).
    destruct (In_nth row x NaN Hx) as (j & Hj & Hjx).
    exists (map (fun row0 => nth j row0 NaN) (r :: rest)). split.
    + apply in_map_iff. exists j. split; [reflexivity|].
      apply in_seq. rewrite (Hrect row Hrow) in Hj. lia.
    + apply in_map_iff. exists row. split; assumption.
Qed.

Lemma all_samples_concat (P : float64 -> Prop) (m : matrix) :
  all_samples P m <-> Forall P (concat m).
Proof. unfold all_samples. symmetry. apply Forall_concat. Qed.

(** When the block of intensities consists of numbers, one of them
    positive, line 486 returns with every sample a number of at most 1 and
    with the value 1 present, in the trace that goes on and in the block of
    the caller's array alike. *)
Theorem scan_scaled_to_unit_peak (st : store) (r0 col0 : list float64)
    (cols : nat) :
  first_row_tail (scan_data st) = Ok r0 ->
  column 0 (tl (scan_data st)) = Ok col0 ->
  rectangular cols (scan_block (scan_data st)) ->
  all_samples finite (scan_block (scan_data st)) ->
  (exists q, In (Fin q) (concat (scan_block (scan_data st))) /\ 0 < q)%Q ->
  let unit := fun x => exists q, x = Fin q /\ (q <= 1)%Q in
  exists after scan_intensities,
    scan_normalize st =
      (after, Ok (map (fun x => fmul x milli) r0,
                  map (fun w => fmul w nano) col0,
                  scan_intensities)) /\
    all_samples unit scan_intensities /\
    In (Fin 1) (concat scan_intensities) /\
    all_samples unit (scan_block (scan_data after)) /\
    In (Fin 1) (concat (scan_block (scan_data after))).
Proof.
  intros H0 H1 Hrect Hfin (q0 & Hq0 & Hpos) unit.
  set (block := scan_block (scan_data st)) in *.
  assert (Hfint : Forall finite (concat (transpose block))).
  { apply all_samples_concat. now apply (transpose_all_samples _ cols). }
  destruct (np_amax_spec (transpose block)) as (peak & Hpeak & Hin & Hmax).
  { now apply finite_no_nan. }
  { intros E. apply (transpose_in_iff cols block _ Hrect) in Hq0.
    rewrite E in Hq0. contradiction. }
  rewrite Forall_forall in Hfint. destruct (Hfint peak Hin) as [m ->].
  assert (Hm : (0 < m)%Q).
  { apply (transpose_in_iff cols block _ Hrect) in Hq0.
    specialize (Hmax _ Hq0). simpl in Hmax. apply Qle_bool_iff in Hmax. Lqa.lra. }
  assert (Hscale : forall x, finite x /\ fleb x (Fin m) = true ->
                             unit (fdiv x (Fin m))).
  { intros x [[a ->] Hle]. destruct (fdiv_by_peak a m Hm Hle) as [-> Hq].
    eexists. split; [reflexivity|exact Hq]. }
  assert (Hone : fdiv (Fin m) (Fin m) = Fin 1).
  { unfold fdiv. rewrite (Qis_zero_false m Hm). now rewrite Qred_self_quotient. }
  destruct (scan_normalize_cases st)
    as [[e He] | (r0' & col0' & peak' & H0' & H1' & H2' & Hn)].
  { exfalso. unfold scan_normalize, bind, read_scan, lift in He. simpl in He.
    fold block in He. rewrite H0, H1, Hpeak in He. simpl in He. discriminate. }
  fold block in H2', Hn.
  rewrite H0 in H0'. rewrite H1 in H1'. rewrite Hpeak in H2'.
  injection H0' as <-. injection H1' as <-. injection H2' as <-.
  eexists. eexists. split; [exact Hn|]. simpl. rewrite scan_block_write_block.
  fold block. repeat split.
  - apply (all_samples_map (fun x => finite x /\ fleb x (Fin m) = true)); [exact Hscale|].
    apply all_samples_concat. apply Forall_forall. intros x Hx.
    split; [now apply Hfint|now apply Hmax].
  - rewrite <- concat_map. apply in_map_iff. exists (Fin m). split; assumption.
  - apply (all_samples_map (fun x => finite x /\ fleb x (Fin m) = true)); [exact Hscale|].
    apply all_samples_concat. apply Forall_forall. intros x Hx.
    apply (transpose_in_iff cols block _ Hrect) in Hx.
    split; [now apply Hfint|now apply Hmax].
  - rewrite <- concat_map. apply in_map_iff. exists (Fin m).
    split; [exact Hone|]. now apply (transpose_in_iff cols block _ Hrect).
Qed.

Lemma scan_scaled_to_unit_peak_witness :
  exists after scan_intensities,
    scan_normalize example_store =
      (after, Ok ([Fin 0; Fin (1 # 1000)],
                  [Fin (1 # 4000000); Fin (7 # 20000000)],
                  scan_intensities)) /\
    In (Fin 1) (concat scan_intensities).
Proof.
  destruct (scan_scaled_to_unit_peak example_store [Fin 0; Fin 1]
              [Fin 250; Fin 350] 2)
    as (after & ints & Hrun & _ & Hone & _).
  - reflexivity.
  - reflexivity.
  - repeat constructor.
  - repeat constructor; eexists; reflexivity.
  - exists 2%Q. split; [vm_compute; auto|reflexivity].
  - exists after, ints. split; assumption.
Defined.

(** *** Background subtraction, row by row *)

Lemma traverse_length {A B : Type} (f : A -> result B) (l : list A) (out : list B) :
  traverse f l = Ok out -> length out = length l.
Proof.
  revert out. induction l as [|x l IH]; intros out; simpl.
  - now intros [= <-].
  - destruct (f x) as [y|]; simpl; [|discriminate].
    destruct (traverse f l) as [ys|]; simpl; [|discriminate].
    intros [= <-]. simpl. f_equal. now apply IH.
Qed.

Lemma traverse_Forall {A B : Type} (f : A -> result B) (P : B -> Prop)
    (l : list A) (out : list B) :
  (forall x y, In x l -> f x = Ok y -> P y) ->
  traverse f l = Ok out -> Forall P out.
Proof.
  revert out. induction l as [|x l IH]; intros out Hf; simpl.
  - intros [= <-]. constructor.
  - destruct (f x) as [y|] eqn:Hy; simpl; [|discriminate].
    destruct (traverse f l) as [ys|]; simpl; [|discriminate].
    intros [= <-]. constructor.
    + apply (Hf x y); [now left|exact Hy].
    + apply IH; [|reflexivity]. intros x' y' Hx'. apply Hf. now right.
Qed.

Section ScanMoreFacts.

Variable blur : matrix -> Z -> matrix.
Variable polyfit : list float64 -> list float64 -> result (float64 * float64).

Lemma subtract_rows_traverse (wl : list float64) (todo : matrix) :
  forall done : matrix,
    subtract_rows polyfit wl (done ++ todo) (seq (length done) (length todo))
    = rbind (traverse (fit_and_subtract polyfit wl) todo)
            (fun rows => Ok (done ++ rows)).
Proof.
  induction todo as [|row todo IH]; intros done.
  - reflexivity.
  - cbn [length seq subtract_rows traverse].
    assert (Hget : getitem (done ++ row :: todo) (length done) = Ok row).
    { unfold getitem. now rewrite nth_error_app2, Nat.sub_diag by lia. }
    assert (Hfirst : firstn (length done) (done ++ row :: todo) = done).
    { rewrite firstn_app, firstn_all, Nat.sub_diag. simpl. apply app_nil_r. }
    assert (Hskip : skipn (S (length done)) (done ++ row :: todo) = todo).
    { rewrite skipn_app, skipn_all2 by lia.
      replace (S (length done) - length done)%nat with 1%nat by lia.
      reflexivity. }
    rewrite Hget, Hfirst, Hskip. cbn [rbind]. unfold fit_and_subtract at 1.
    destruct (polyfit _ _) as [p|e]; cbn [rbind]; [|reflexivity].
    replace (done ++ subtract_line p wl row :: todo)
      with ((done ++ [subtract_line p wl row]) ++ todo)
      by now rewrite <- app_assoc.
    replace (S (length done)) with (length (done ++ [subtract_line p wl row]))
      by (rewrite length_app; simpl; lia).
    rewrite IH.
    destruct (traverse (fit_and_subtract polyfit wl) todo); cbn [rbind];
      [|reflexivity].
    now rewrite <- app_assoc.
Qed.

(** With one row per stage position, the loop of lines 498-503 treats the
    rows independently and in order: each row is replaced by itself minus the
    line fitted to its own first and last 15 samples, and the first fit that
    raises ends the loop with its error. *)
Theorem subtract_background_rowwise (scan_positions scan_wavelength : list float64)
    (scan_intensities : matrix) :
  length scan_positions = length scan_intensities ->
  subtract_background polyfit scan_positions scan_wavelength scan_intensities
  = traverse (fit_and_subtract polyfit scan_wavelength) scan_intensities.
Proof.
  intros Hlen. unfold subtract_background. rewrite Hlen.
  pose proof (subtract_rows_traverse scan_wavelength scan_intensities []) as H.
  cbn [app length] in H. rewrite H.
  now destruct (traverse _ _).
Qed.

(** *** The shape of the loaded trace *)

Lemma transpose_shape (r : list float64) (rest : matrix) :
  length (transpose (r :: rest)) = length r /\
  Forall (fun col => length col = S (length rest)) (transpose (r :: rest)).
Proof.
  unfold transpose. split.
  - now rewrite length_map, length_seq.
  - apply Forall_forall. intros col Hcol. apply in_map_iff in Hcol.
    destruct Hcol as (j & <- & _). now rewrite length_map.
Qed.

Lemma subtract_line_length (p : float64 * float64) (wl row : list float64) :
  length row = length wl -> length (subtract_line p wl row) = length wl.
Proof.
  intros H. unfold subtract_line. rewrite length_map, length_combine. lia.
Qed.

(** For a rectangular array of [P + 1] columns and without the filter,
    a trace that [load_scan] returns is rectangular as well: [P] positions,
    [P] rows of intensities, and in every row one sample per wavelength that
    is left after cropping. *)
Theorem load_scan_shape (range : float64 * float64) (st : store) (P : nat)
    (scan_positions scan_wavelength : list float64) (scan_intensities : matrix) :
  rectangular (S P) (scan_data st) ->
  snd (load_scan blur polyfit 0 range st)
  = Ok (scan_positions, scan_wavelength, scan_intensities) ->
  length scan_positions = P /\
  length scan_intensities = P /\
  rectangular (length scan_wavelength) scan_intensities.
Proof.
  intros Hrect Hrun.
  destruct (scan_normalize_cases st)
    as [[e He] | (r0 & col0 & peak & H0 & H1 & H2 & Hn)].
  { rewrite (load_scan_rejected blur polyfit 0 range st e He) in Hrun. discriminate. }
  unfold load_scan, crop_scan, bind in Hrun. rewrite Hn in Hrun.
  unfold gaussian_filter, scan_crop, lift, ret in Hrun. cbn in Hrun.
  set (wlall := map (fun w => fmul w nano) col0) in *.
  set (scaled := map (map (fun x => fdiv x peak)) (transpose (scan_block (scan_data st)))) in *.
  set (mask := window range wlall) in *.
  destruct (subtract_background polyfit _ _ _) as [out|] eqn:Hsub; [|discriminate].
  injection Hrun as <- <- <-.
  unfold rectangular in Hrect. rewrite Forall_forall in Hrect.
  destruct (scan_data st) as [|first rows] eqn:Hsd; [discriminate|].
  injection H0 as <-. simpl in H1.
  assert (Hfirst : length (tl first) = P).
  { specialize (Hrect first (or_introl eq_refl)). destruct first; simpl in *; lia. }
  assert (Hblock : scan_block (first :: rows) = map (@tl float64) rows) by reflexivity.
  rewrite Hblock in *.
  destruct rows as [|row1 rows']; [discriminate|].
  cbn [map] in *.
  destruct (transpose_shape (tl row1) (map (@tl float64) rows')) as [Hcols Hrows].
  assert (Hrow1 : length (tl row1) = P).
  { specialize (Hrect row1 (or_intror (or_introl eq_refl))).
    destruct row1; simpl in *; lia. }
  assert (Hscaled : length scaled = P).
  { unfold scaled. rewrite length_map, Hblock. lia. }
  assert (Hwl : length wlall = S (length rows')).
  { unfold wlall. rewrite length_map. apply column_length in H1. simpl in H1. lia. }
  assert (Hmask : length mask = S (length rows')).
  { unfold mask, window. now rewrite length_map. }
  assert (Hcrop : Forall (fun row => length row = length (select mask wlall))
                         (map (select mask) scaled)).
  { apply Forall_forall. intros row Hrow. apply in_map_iff in Hrow.
    destruct Hrow as (srow & <- & Hs). unfold scaled in Hs. rewrite Hblock in Hs.
    apply in_map_iff in Hs. destruct Hs as (trow & <- & Ht).
    rewrite Forall_forall in Hrows. specialize (Hrows trow Ht).
    rewrite length_map in Hrows.
    rewrite !select_length; [reflexivity| |]; rewrite ?length_map; lia. }
  assert (Htrav : subtract_background polyfit
                    (map (fun x => fmul x milli) (tl first))
                    (select mask wlall) (map (select mask) scaled)
                  = traverse (fit_and_subtract polyfit (select mask wlall))
                             (map (select mask) scaled)).
  { unfold subtract_background.
    replace (length (map (fun x => fmul x milli) (tl first)))
      with (length (map (select mask) scaled)) by (rewrite !length_map; lia).
    pose proof (subtract_rows_traverse (select mask wlall)
                  (map (select mask) scaled) []) as H.
    cbn [app length] in H. rewrite H. now destruct (traverse _ _). }
  rewrite Htrav in Hsub.
  split; [now rewrite length_map|]. split.
  - apply traverse_length in Hsub. rewrite Hsub, length_map. exact Hscaled.
  - unfold rectangular. eapply traverse_Forall; [|exact Hsub].
    intros row out' Hrow Hfit. unfold fit_and_subtract in Hfit.
    destruct (polyfit _ _) as [p|]; simpl in Hfit; [|discriminate].
    injection Hfit as <-. apply subtract_line_length.
    rewrite Forall_forall in Hcrop. now apply Hcrop.
Qed.

(** *** The first cell of the array *)

(** The cell [scan_data[0, 0]], which the acquisition fills with NaN and
    the old text format leaves unset, is never read: two arrays that differ
    in it alone give the same result, whatever the filter and the fit do. *)
Theorem first_cell_is_ignored (sigma : Z) (range : float64 * float64)
    (fund : matrix) (c c' : float64) (r0 : list float64) (rows : matrix) :
  snd (load_scan blur polyfit sigma range
         {| fund_data := fund; scan_data := (c :: r0) :: rows |})
  = snd (load_scan blur polyfit sigma range
           {| fund_data := fund; scan_data := (c' :: r0) :: rows |}).
Proof.
  unfold load_scan, crop_scan, scan_normalize, bind, read_scan, lift, write_scan, ret.
  cbn [scan_data fund_data first_row_tail tl scan_block write_block map fst snd].
  destruct (column 0 rows) as [col0|]; [|reflexivity].
  destruct (np_amax (transpose (map (@tl float64) rows))) as [peak|]; [|reflexivity].
  cbn [rbind fst snd].
  destruct (scan_crop _ _ _) as [wl ints].
  now destruct (subtract_background _ _ _ _).
Qed.

End ScanMoreFacts.

(** Two rows and a fit that always returns the constant line 1. *)
Lemma subtract_background_rowwise_witness :
  subtract_background (fun _ _ => Ok (Fin 0, Fin 1)) [Fin 0; Fin 1]
    [Fin 1; Fin 2] [[Fin 3; Fin 4]; [Fin 5; Fin 6]]
  = Ok [[Fin 2; Fin 3]; [Fin 4; Fin 5]].
Proof.
  rewrite (subtract_background_rowwise (fun _ _ => Ok (Fin 0, Fin 1))
             [Fin 0; Fin 1] [Fin 1; Fin 2] [[Fin 3; Fin 4]; [Fin 5; Fin 6]] eq_refl).
  reflexivity.
Defined.

(** The example array: two positions, one wavelength inside the window. *)
Lemma load_scan_shape_witness :
  exists scan_positions scan_wavelength scan_intensities,
    snd (load_scan (fun m _ => m) (fun _ _ => Ok (Fin 0, Fin 0)) 0
           (Fin 200, Fin 300) example_store)
    = Ok (scan_positions, scan_wavelength, scan_intensities) /\
    length scan_positions = 2%nat /\ length scan_intensities = 2%nat /\
    rectangular (length scan_wavelength) scan_intensities.
Proof.
  exists [Fin 0; Fin (1 # 1000)], [Fin (1 # 4000000)], [[Fin (1 # 4)]; [Fin (1 # 2)]].
  split; [reflexivity|].
  apply (load_scan_shape (fun m _ => m) (fun _ _ => Ok (Fin 0, Fin 0))
           (Fin 200, Fin 300) example_store 2).
  - repeat constructor.
  - reflexivity.
Defined.

End ScanMore.

(** * Properties of the assembled scan arrays *)
Module AcquisitionFacts.
Import Numpy NumpyFacts Preprocess PreprocessFacts Fundamental FundamentalFacts.
Import Acquisition.

(** *** Tables and transposition *)

Lemma map_nth_seq_from {A : Type} (l : list A) (d : A) (k : nat) :
  map (fun j => nth j l d) (seq k (length l - k)) = skipn k l.
Proof.
  revert k. induction l as [|x l IH]; intros k.
  - simpl. now destruct k.
  - destruct k as [|k].
    + simpl. f_equal. rewrite <- seq_shift, map_map.
      specialize (IH 0%nat). rewrite Nat.sub_0_r in IH. simpl in IH. exact IH.
    + simpl. rewrite <- seq_shift, map_map. simpl. apply IH.
Qed.

Lemma map_nth_seq_all {A : Type} (l : list A) (d : A) :
  map (fun j => nth j l d) (seq 0 (length l)) = l.
Proof.
  pose proof (map_nth_seq_from l d 0) as H. now rewrite Nat.sub_0_r in H.
Qed.

Lemma transpose_involutive (cols : nat) (m : matrix) :
  rectangular cols m -> cols <> 0%nat -> m <> [] ->
  transpose (transpose m) = m.
Proof.
  intros Hrect Hcols Hm.
  destruct m as [|r rest]; [congruence|].
  unfold rectangular in Hrect. rewrite Forall_forall in Hrect.
  pose proof (Hrect r (or_introl eq_refl)) as Hr.
  destruct cols as [|n]; [congruence|].
  set (X := r :: rest) in *.
  set (g := fun j => map (fun row : list float64 => nth j row NaN) X).
  assert (HT : transpose X = g 0%nat :: map g (seq 1 n)).
  { unfold transpose, X. rewrite Hr. reflexivity. }
  rewrite HT. unfold transpose.
  change (g 0%nat :: map g (seq 1 n)) with (map g (seq 0 (S n))).
  assert (Hg0 : length (g 0%nat) = length X) by (unfold g; apply length_map).
  rewrite Hg0.
  transitivity (map (fun i => nth i X []) (seq 0 (length X)));
    [|apply map_nth_seq_all].
  apply map_ext_in. intros i Hi. apply in_seq in Hi.
  rewrite map_map.
  assert (Hrow : length (nth i X []) = S n).
  { apply Hrect. apply nth_In. lia. }
  transitivity (map (fun j => nth j (nth i X []) NaN)
                    (seq 0 (length (nth i X []))));
    [|apply map_nth_seq_all].
  rewrite Hrow. apply map_ext. intros j. unfold g.
  rewrite (nth_indep _ NaN ((fun row : list float64 => nth j row NaN) []))
    by (rewrite length_map; lia).
  apply (map_nth (fun row : list float64 => nth j row NaN)).
Qed.

Lemma combine_map_seq {A : Type} (g : nat -> A) (n : nat) :
  forall (s : nat) (c : list float64),
    length c = n ->
    combine (map g (seq s n)) c
    = map (fun j => (g j, nth (j - s) c NaN)) (seq s n).
Proof.
  induction n as [|n IH]; intros s [|x c] Hlen; simpl in Hlen; try discriminate.
  - reflexivity.
  - cbn [seq map combine]. rewrite Nat.sub_diag. cbn [nth]. f_equal.
    rewrite (IH (S s) c) by lia. apply map_ext_in. intros j Hj.
    apply in_seq in Hj.
    replace (j - s)%nat with (S (j - S s)) by lia. reflexivity.
Qed.

Lemma table_nil (first : list float64) :
  table first [] = map (fun x => [x]) first.
Proof.
  unfold table. cbn [map].
  transitivity (map (fun x : float64 => [x])
                    (map (fun j => nth j first NaN) (seq 0 (length first)))).
  - now rewrite map_map.
  - now rewrite map_nth_seq_all.
Qed.

Lemma table_length (first : list float64) (columns : matrix) :
  length (table first columns) = length first.
Proof. unfold table. now rewrite length_map, length_seq. Qed.

Lemma stack_column_table (first : list float64) (columns : matrix)
    (c : list float64) :
  length c = length first ->
  stack_column (table first columns) c = Ok (table first (columns ++ [c])).
Proof.
  intros Hlen. unfold stack_column. rewrite table_length, <- Hlen, Nat.eqb_refl.
  unfold table. rewrite <- Hlen, combine_map_seq by reflexivity.
  rewrite map_map. apply f_equal. apply map_ext. intros j. cbn [fst snd].
  rewrite Nat.sub_0_r, map_app. reflexivity.
Qed.

Lemma column_0_cons {A : Type} (h : A -> float64) (t : A -> list float64)
    (l : list A) :
  column 0 (map (fun j => h j :: t j) l) = Ok (map h l).
Proof.
  induction l as [|x l IH]; [reflexivity|]. cbn [map column]. rewrite IH. reflexivity.
Qed.

(** A table whose first column starts with an unused cell reads as its
    heads, its first column and its columns. *)
Lemma table_reads_as (unused : float64) (c : list float64)
    (columns : list (float64 * list float64)) :
  c <> [] -> columns <> [] ->
  Forall (fun pb => length (snd pb) = length c) columns ->
  reads_as (table (unused :: c) (map (fun pb => fst pb :: snd pb) columns))
           (map fst columns) c (map snd columns).
Proof.
  intros Hc Hcols Hlen. unfold reads_as, table. cbn [length seq map].
  rewrite <- seq_shift, !map_map.
  split; [|split].
  - cbn [first_row_tail tl nth]. f_equal.
  - cbn [tl]. rewrite column_0_cons. f_equal. cbn [nth]. apply map_nth_seq_all.
  - unfold scan_block. cbn [tl]. rewrite map_map. cbn [tl].
    destruct columns as [|pb0 rest]; [congruence|].
    inversion Hlen as [|? ? H0 _]; subst.
    set (columns := pb0 :: rest) in *.
    assert (HT : transpose (map snd columns)
                 = map (fun j => map (fun col => nth (S j) col NaN)
                                     (map (fun pb => fst pb :: snd pb) columns))
                       (seq 0 (length c))).
    { unfold transpose, columns. cbn [map]. rewrite H0. fold columns.
      change (snd pb0 :: map snd rest) with (map snd columns).
      change ((fst pb0 :: snd pb0) :: map (fun pb => fst pb :: snd pb) rest)
        with (map (fun pb => fst pb :: snd pb) columns).
      apply map_ext. intros j. rewrite !map_map. reflexivity. }
    rewrite <- HT. apply (transpose_involutive (length c)).
    + unfold rectangular. apply Forall_map. exact Hlen.
    + intros Hz. apply length_zero_iff_nil in Hz. contradiction.
    + discriminate.
Qed.

(** *** Acquisition *)

Section Acquire.

Variable spec_scan_range : float64 * float64.
Variable wavelength : list float64.

Let cut (a : list float64) : list float64 :=
  select (between (fst spec_scan_range) (snd spec_scan_range) wavelength) a.

Lemma cut_length (a : list float64) :
  length a = length wavelength -> length (cut a) = length (cut wavelength).
Proof.
  intros H. unfold cut. rewrite !select_length; [reflexivity| |];
    unfold between; rewrite length_map; lia.
Qed.

Lemma acquire_loop_table (readings : list (float64 * list float64)) :
  forall columns : matrix,
    Forall (fun r => length (snd r) = length wavelength) readings ->
    acquire_loop spec_scan_range wavelength
      (table (NaN :: cut wavelength) columns) readings
    = Ok (table (NaN :: cut wavelength)
            (columns ++ map (fun r => fst r :: cut (snd r)) readings)).
Proof.
  induction readings as [|[position intensities] rest IH]; intros columns Hlen.
  - cbn [acquire_loop map]. now rewrite app_nil_r.
  - inversion Hlen as [|? ? Hr Hrest]; subst. cbn [snd] in Hr.
    cbn [acquire_loop]. unfold boolean_index, between. rewrite length_map.
    rewrite <- Hr, Nat.eqb_refl. cbn [rbind].
    fold (between (fst spec_scan_range) (snd spec_scan_range) wavelength).
    fold (cut intensities).
    rewrite stack_column_table by (cbn [length]; now rewrite cut_length).
    cbn [rbind]. rewrite (IH _ Hrest). cbn [map fst snd].
    now rewrite <- app_assoc.
Qed.

(** The contour plot accepts a trace of [P] positions and [W] wavelengths
    exactly when [P] equals [W] and is at least 2. *)
Lemma contourf_cases (x y : list float64) (z : matrix) (P W : nat) :
  length x = P -> length y = W -> length z = P -> length (hd [] z) = W ->
  (P = W -> (2 <= P)%nat -> contourf x y z = Ok tt) /\
  (P <> W \/ (P < 2)%nat -> exists msg, contourf x y z = Error (TypeError msg)).
Proof.
  intros Hx Hy Hz Hh. unfold contourf. rewrite Hx, Hy, Hz, Hh. split.
  - intros <- HP.
    destruct (Nat.ltb_spec P 2) as [H|_]; [lia|]. cbn [orb].
    now rewrite Nat.eqb_refl.
  - intros Hbad.
    destruct (Nat.ltb_spec P 2) as [H|HP]; [eexists; reflexivity|].
    destruct (Nat.ltb_spec W 2) as [H|HW]; [eexists; reflexivity|]. cbn [orb].
    destruct (Nat.eqb_spec P W) as [Heq|Hne]; [lia|]. eexists. reflexivity.
Qed.

(** With spectra of the length of the wavelength axis the loop ends, and
    what remains of [acquire_data] is the contour plot of the array. *)
Lemma acquire_data_after_loop (readings : list (float64 * list float64)) :
  readings <> [] ->
  Forall (fun r => length (snd r) = length wavelength) readings ->
  let scan_data :=
    table (NaN :: cut wavelength) (map (fun r => fst r :: cut (snd r)) readings) in
  acquire_data false spec_scan_range wavelength readings =
  of_result
    (rbind (first_row_tail scan_data) (fun scan_positions =>
     rbind (column 0 (tl scan_data)) (fun scan_wavelength =>
     rbind (contourf scan_positions scan_wavelength
              (transpose (scan_block scan_data))) (fun _ =>
     Ok scan_data)))).
Proof.
  intros Hne Hlen scan_data. subst scan_data.
  unfold acquire_data. destruct readings as [|r rest] eqn:E; [congruence|].
  rewrite <- E in *. fold (cut wavelength).
  rewrite <- table_nil, (acquire_loop_table readings [] Hlen). reflexivity.
Qed.

Lemma spectra_shape (readings : list (float64 * list float64)) :
  readings <> [] ->
  Forall (fun r => length (snd r) = length wavelength) readings ->
  length (map (fun r => cut (snd r)) readings) = length readings /\
  length (hd [] (map (fun r => cut (snd r)) readings)) = length (cut wavelength).
Proof.
  intros Hne Hlen. split; [apply length_map|].
  destruct readings as [|r rest]; [congruence|].
  inversion Hlen; subst. cbn [map hd]. now apply cut_length.
Qed.

Lemma acquired_table_reads_as (readings : list (float64 * list float64)) :
  readings <> [] ->
  Forall (fun r => length (snd r) = length wavelength) readings ->
  cut wavelength <> [] ->
  reads_as (table (NaN :: cut wavelength)
              (map (fun r => fst r :: cut (snd r)) readings))
           (map fst readings) (cut wavelength)
           (map (fun r => cut (snd r)) readings).
Proof.
  intros Hne Hlen Hcut.
  pose proof (table_reads_as NaN (cut wavelength)
                (map (fun r => (fst r, cut (snd r))) readings)) as H.
  rewrite !map_map in H. cbn [fst snd] in H. apply H.
  - exact Hcut.
  - intros Hnil. apply map_eq_nil in Hnil. contradiction.
  - apply Forall_map. eapply Forall_impl; [|exact Hlen].
    intros r Hr. cbn [snd]. now apply cut_length.
Qed.

(** Without scan points [acquire_data] ends in [UnboundLocalError]. With
    scan points whose spectra have the length of the wavelength axis, the
    contour plot of line 715 decides: when the number of scan points equals
    the number of wavelengths inside the range and is at least 2, the
    function returns an array that [run_pypret] reads back as acquired (the
    positions in the order of the scan, the wavelengths inside the range,
    and as its [i]-th row of intensities the cropped spectrum of the [i]-th
    point); otherwise it ends in the [TypeError] of the plot and returns
    nothing. *)
Theorem acquire_data_reads_back (readings : list (float64 * list float64)) :
  (readings = [] ->
   acquire_data false spec_scan_range wavelength readings
   = UnboundLocalError "scan_data") /\
  (readings <> [] ->
   Forall (fun r => length (snd r) = length wavelength) readings ->
   length readings = length (cut wavelength) -> (2 <= length readings)%nat ->
   exists scan_data,
     acquire_data false spec_scan_range wavelength readings = Done scan_data /\
     rectangular (S (length readings)) scan_data /\
     reads_as scan_data (map fst readings) (cut wavelength)
              (map (fun r => cut (snd r)) readings)) /\
  (readings <> [] ->
   Forall (fun r => length (snd r) = length wavelength) readings ->
   length readings <> length (cut wavelength) \/ (length readings < 2)%nat ->
   exists msg,
     acquire_data false spec_scan_range wavelength readings
     = Raised (TypeError msg)).
Proof.
  split; [intros ->; reflexivity|]. split.
  - intros Hne Hlen Hsquare Htwo.
    assert (Hcut : cut wavelength <> []).
    { intros Hnil. rewrite Hnil in Hsquare. simpl in Hsquare. lia. }
    destruct (acquired_table_reads_as readings Hne Hlen Hcut) as (Hpos & Hwl & Hz).
    destruct (spectra_shape readings Hne Hlen) as (Hrows & Hcols).
    eexists. split; [|split].
    + rewrite (acquire_data_after_loop readings Hne Hlen). cbv zeta.
      rewrite Hpos, Hwl, Hz. cbn [rbind].
      rewrite (proj1 (contourf_cases (map fst readings) (cut wavelength)
                        (map (fun r => cut (snd r)) readings)
                        (length readings) (length (cut wavelength))
                        (length_map _ _) eq_refl Hrows Hcols) Hsquare Htwo).
      reflexivity.
    + unfold rectangular, table. apply Forall_forall. intros row Hrow.
      apply in_map_iff in Hrow. destruct Hrow as (j & <- & _).
      cbn [length]. now rewrite !length_map.
    + split; [exact Hpos|]. split; [exact Hwl|exact Hz].
  - intros Hne Hlen Hbad.
    rewrite (acquire_data_after_loop readings Hne Hlen). cbv zeta.
    destruct (cut wavelength) as [|w ws] eqn:Hcut.
    + unfold table. cbn [length seq map nth first_row_tail tl column scan_block
                         transpose rbind].
      eexists. reflexivity.
    + rewrite <- Hcut in *.
      assert (Hcut' : cut wavelength <> []) by (rewrite Hcut; discriminate).
      destruct (acquired_table_reads_as readings Hne Hlen Hcut') as (Hpos & Hwl & Hz).
      destruct (spectra_shape readings Hne Hlen) as (Hrows & Hcols).
      rewrite Hpos, Hwl, Hz. cbn [rbind].
      destruct (proj2 (contourf_cases (map fst readings) (cut wavelength)
                         (map (fun r => cut (snd r)) readings)
                         (length readings) (length (cut wavelength))
                         (length_map _ _) eq_refl Hrows Hcols) Hbad) as [msg ->].
      eexists. reflexivity.
Qed.

(** A spectrum whose length differs from that of the wavelength axis read
    at the first point ends the acquisition with an [IndexError]. *)
Theorem acquire_data_rejects_length (readings : list (float64 * list float64)) :
  Exists (fun r => length (snd r) <> length wavelength) readings ->
  exists msg, acquire_data false spec_scan_range wavelength readings
              = Raised (IndexError msg).
Proof.
  intros Hbad.
  assert (Hloop : forall rs columns,
            Exists (fun r => length (snd r) <> length wavelength) rs ->
            exists msg, acquire_loop spec_scan_range wavelength
                          (table (NaN :: cut wavelength) columns) rs
                        = Error (IndexError msg)).
  { induction rs as [|[position intensities] rest IH]; intros columns Hex;
      [inversion Hex|].
    cbn [acquire_loop]. unfold boolean_index, between. rewrite length_map.
    destruct (Nat.eqb_spec (length wavelength) (length intensities)) as [Heq|Hne].
    - cbn [rbind].
      fold (between (fst spec_scan_range) (snd spec_scan_range) wavelength).
      fold (cut intensities).
      rewrite stack_column_table by (cbn [length]; now rewrite cut_length).
      cbn [rbind]. apply IH.
      inversion Hex as [? ? H|? ? H]; subst; [cbn [snd] in H; congruence|exact H].
    - eexists. reflexivity. }
  unfold acquire_data. destruct readings as [|r rest] eqn:E; [inversion Hbad|].
  rewrite <- E in *. fold (cut wavelength). rewrite <- table_nil.
  destruct (Hloop readings [] Hbad) as [msg ->]. eexists. reflexivity.
Qed.

End Acquire.

(** Two scan points on a spectrometer with three pixels, two of them
    inside the range: the array is returned. With a third scan point the
    plot of line 715 is given three positions for two wavelengths, and the
    acquisition ends in its [TypeError]. *)
Lemma acquire_data_reads_back_witness :
  acquire_data false (Fin 200, Fin 300) [Fin 150; Fin 250; Fin 260]
    [(Fin 0, [Fin 1; Fin 2; Fin 3]); (Fin 1, [Fin 4; Fin 5; Fin 6])]
  = Done [[NaN; Fin 0; Fin 1]; [Fin 250; Fin 2; Fin 5]; [Fin 260; Fin 3; Fin 6]] /\
  exists msg,
    acquire_data false (Fin 200, Fin 300) [Fin 150; Fin 250; Fin 260]
      [(Fin 0, [Fin 1; Fin 2; Fin 3]); (Fin 1, [Fin 4; Fin 5; Fin 6]);
       (Fin 2, [Fin 7; Fin 8; Fin 9])]
    = Raised (TypeError msg).
Proof.
  split.
  - destruct (proj1 (proj2 (acquire_data_reads_back (Fin 200, Fin 300)
                       [Fin 150; Fin 250; Fin 260]
                       [(Fin 0, [Fin 1; Fin 2; Fin 3]); (Fin 1, [Fin 4; Fin 5; Fin 6])])))
      as (scan_data & Hrun & _).
    + discriminate.
    + repeat constructor.
    + reflexivity.
    + simpl. lia.
    + rewrite Hrun. vm_compute in Hrun. now injection Hrun as <-.
  - apply (proj2 (proj2 (acquire_data_reads_back (Fin 200, Fin 300)
                     [Fin 150; Fin 250; Fin 260]
                     [(Fin 0, [Fin 1; Fin 2; Fin 3]); (Fin 1, [Fin 4; Fin 5; Fin 6]);
                      (Fin 2, [Fin 7; Fin 8; Fin 9])]))).
    + discriminate.
    + repeat constructor.
    + left. simpl. lia.
Defined.

Lemma acquire_data_rejects_length_witness :
  exists msg,
    acquire_data false (Fin 200, Fin 300) [Fin 250; Fin 260]
      [(Fin 0, [Fin 1; Fin 2]); (Fin 1, [Fin 4])]
    = Raised (IndexError msg).
Proof.
  apply (acquire_data_rejects_length (Fin 200, Fin 300) [Fin 250; Fin 260]).
  right. left. simpl. discriminate.
Defined.

(** *** The old text format *)

Lemma seq_from_two (k : nat) : seq 2 k = map (fun j => S (S j)) (seq 0 k).
Proof. now rewrite <- !seq_shift, map_map. Qed.

(** The old text format has the positions in its first column and the
    wavelengths in its first row from the third cell on. For such an array
    with at least three columns and one spectrum, the converted array reads
    in [run_pypret] as the positions, the wavelengths and the spectra of
    the file; neither the second column of the file nor the cell that
    [np.empty] left unset is read. *)
Theorem old_text_format_reads_back (junk : float64) (header : list float64)
    (body : matrix) (C : nat) :
  body <> [] -> rectangular C (header :: body) -> (3 <= C)%nat ->
  exists M,
    load_old_text_format junk (header :: body) = Ok M /\
    reads_as M (map (fun row => nth 0 row NaN) body) (skipn 2 header)
             (map (skipn 2) body).
Proof.
  intros Hbody Hrect HC.
  unfold rectangular in Hrect. rewrite Forall_forall in Hrect.
  pose proof (Hrect header (or_introl eq_refl)) as Hh.
  destruct header as [|h0 [|h1 hs]] eqn:Eh; simpl in Hh; try lia.
  rewrite <- Eh in *.
  assert (Hlen : length header = C) by (rewrite Eh; exact Hh).
  eexists. split.
  { unfold load_old_text_format. cbn [getitem nth_error rbind]. rewrite Eh at 1.
    cbn [tl]. reflexivity. }
  unfold reads_as. split; [reflexivity|]. split.
  - cbn [tl]. rewrite column_0_cons. f_equal. apply map_nth_seq_from.
  - unfold scan_block. cbn [tl]. rewrite map_map. cbn [tl].
    assert (HT : transpose (map (skipn 2) body)
                 = map (fun j => map (fun row => nth j row NaN) body)
                       (seq 2 (length header - 2))).
    { destruct body as [|b0 rest]; [congruence|].
      pose proof (Hrect b0 (or_intror (or_introl eq_refl))) as Hb0.
      unfold transpose. cbn [map]. rewrite length_skipn, Hb0, Hlen.
      rewrite seq_from_two, map_map. apply map_ext. intros j.
      rewrite nth_skipn. apply f_equal. rewrite map_map.
      apply map_ext. intros row. apply nth_skipn. }
    rewrite <- HT. apply (transpose_involutive (C - 2)).
    + unfold rectangular. apply Forall_map. apply Forall_forall.
      intros row Hrow. rewrite length_skipn.
      rewrite (Hrect row (or_intror Hrow)). reflexivity.
    + lia.
    + intros Hnil. apply map_eq_nil in Hnil. contradiction.
Qed.

Lemma old_text_format_reads_back_witness :
  load_old_text_format PInf
    [[Fin 9; Fin 9; Fin 250; Fin 260]; [Fin 0; Fin 7; Fin 2; Fin 3];
     [Fin 1; Fin 7; Fin 5; Fin 6]]
  = Ok [[PInf; Fin 0; Fin 1]; [Fin 250; Fin 2; Fin 5]; [Fin 260; Fin 3; Fin 6]].
Proof.
  destruct (old_text_format_reads_back PInf [Fin 9; Fin 9; Fin 250; Fin 260]
              [[Fin 0; Fin 7; Fin 2; Fin 3]; [Fin 1; Fin 7; Fin 5; Fin 6]] 4)
    as (M & Hrun & _).
  - discriminate.
  - repeat constructor.
  - lia.
  - rewrite Hrun. vm_compute in Hrun. now injection Hrun as <-.
Defined.

End AcquisitionFacts.
